(** * Leaderboard broadcaster: rank-change diff, achievements, fan-out, cycle gate

    A shallow embedding of [backend/src/services/leaderboard-broadcaster.service.ts].

    Conventions.
    - TypeScript [number] values that hold ranks, timestamps and limits are
      integers ([Z]).  PnL amounts are only copied from repository rows into
      payloads and never inspected; they are carried as integers as well.
    - A JS [Map<string, V>] is an association list in insertion order with
      unique keys ([Map_set] keeps it so); iteration follows that order.
    - Object literals sent over the transport are [JsVal] objects: a list of
      (field name, value) pairs in the order the literal lists them.
    - [logger.*] calls have no effect on the service and are left out.
    - The process is single-threaded.  An async method is a sequence of
      segments, each run without interruption up to the next [await]; what
      the awaited repository call answers, and what else runs in between, is
      chosen by the environment. *)

From Stdlib Require Import ZArith List String Bool Lia Sorted Permutation
  DecimalString.
Import ListNotations.
Local Open Scope string_scope.
Local Open Scope Z_scope.
Set Warnings "-register-all".

(** ** Data model *)

Record RankSnapshot := mkRankSnapshot {
  rs_userId : string;
  globalRank : Z;
  weeklyRank : Z;
  allTimePnl : Z;
  weeklyPnl : Z;
  rs_timestamp : Z
}.

Record RankChangeEvent := mkRankChangeEvent {
  userId : string;
  previousGlobalRank : Z;
  currentGlobalRank : Z;
  previousWeeklyRank : Z;
  currentWeeklyRank : Z;
  rankChange : Z;
  timestamp : Z
}.

(** The result type of [detectAchievements]: [{type, title, description}]. *)
Record Achievement := mkAchievement {
  a_type : string;
  a_title : string;
  a_description : string
}.

(** A row as the repository returns it ([findMany], [getGlobal],
    [getWeekly]); [lb_username] is [lb.user.username]. *)
Record LeaderboardRow := mkRow {
  lb_userId : string;
  lb_username : string;
  lb_globalRank : Z;
  lb_weeklyRank : Z;
  lb_allTimePnl : Z;
  lb_weeklyPnl : Z
}.

(** Values placed on the wire. *)
Inductive JsVal :=
| JNum (z : Z)
| JStr (s : string)
| JBool (b : bool)
| JArr (items : list JsVal)
| JObj (fields : list (string * JsVal)).


Fixpoint lookupField (k : string) (fs : list (string * JsVal)) : option JsVal :=
  match fs with
  | [] => None
  | (k', v) :: fs' => if String.eqb k k' then Some v else lookupField k fs'
  end.

Definition getField (k : string) (v : JsVal) : option JsVal :=
  match v with
  | JObj fs => lookupField k fs
  | _ => None
  end.

Definition arrayItems (v : JsVal) : list JsVal :=
  match v with
  | JArr l => l
  | _ => []
  end.

(** Template-literal rendering of an integer, [`${n}`]. *)
Definition numberToString (z : Z) : string :=
  NilZero.string_of_int (Z.to_int z).

(** ** [Map<string, V>] *)

Section JsMap.
Context {V : Type}.

Definition JsMap := list (string * V).

Fixpoint Map_get (m : JsMap) (k : string) : option V :=
  match m with
  | [] => None
  | (k', v) :: m' => if String.eqb k k' then Some v else Map_get m' k
  end.

(** [set] overwrites in place when the key exists and appends otherwise. *)
Fixpoint Map_set (m : JsMap) (k : string) (v : V) : JsMap :=
  match m with
  | [] => [(k, v)]
  | (k', v') :: m' =>
      if String.eqb k k' then (k', v) :: m' else (k', v') :: Map_set m' k v
  end.

Definition Map_entries (m : JsMap) : list (string * V) := m.
Definition Map_keys (m : JsMap) : list string := map fst m.
Definition Map_size (m : JsMap) : Z := Z.of_nat (List.length m).

(** Well-formed maps have no repeated key. *)
Definition MapWf (m : JsMap) : Prop := NoDup (Map_keys m).
End JsMap.
Arguments JsMap V : clear implicits.

(** ** [Array.prototype.sort]

    The sort is stable; with a comparator [cmp a b] that is negative when [a]
    goes first it is modelled by a stable insertion sort. *)

Section ArraySort.
Context {A : Type}.
Variable cmp : A -> A -> Z.

Fixpoint sortInsert (x : A) (l : list A) : list A :=
  match l with
  | [] => [x]
  | y :: l' => if cmp x y <=? 0 then x :: l else y :: sortInsert x l'
  end.

Definition Array_sort (l : list A) : list A := fold_right sortInsert [] l.
End ArraySort.

(** ** [detectRankChanges] *)

(** One iteration of the loop over [currentSnapshot.entries()]: the event
    pushed for the entry, if any. *)
Definition changeFor (previousSnapshots : JsMap RankSnapshot)
    (entry : string * RankSnapshot) : list RankChangeEvent :=
  let (uid, current) := entry in
  match Map_get previousSnapshots uid with
  | None => []
  | Some previous =>
      let globalRankChanged := negb (globalRank current =? globalRank previous) in
      let weeklyRankChanged := negb (weeklyRank current =? weeklyRank previous) in
      if globalRankChanged || weeklyRankChanged then
        [ {| userId := uid;
             previousGlobalRank := globalRank previous;
             currentGlobalRank := globalRank current;
             previousWeeklyRank := weeklyRank previous;
             currentWeeklyRank := weeklyRank current;
             rankChange := globalRank previous - globalRank current;
             timestamp := rs_timestamp current |} ]
      else []
  end.

(** The [changes] array before the sort. *)
Definition collectChanges (previousSnapshots currentSnapshot : JsMap RankSnapshot)
  : list RankChangeEvent :=
  flat_map (changeFor previousSnapshots) (Map_entries currentSnapshot).

Definition byMagnitude (a b : RankChangeEvent) : Z :=
  Z.abs (rankChange b) - Z.abs (rankChange a).

Definition detectRankChanges (previousSnapshots currentSnapshot : JsMap RankSnapshot)
  : list RankChangeEvent :=
  Array_sort byMagnitude (collectChanges previousSnapshots currentSnapshot).

(** ** [detectAchievements] *)

Definition detectAchievements (change : RankChangeEvent) : list Achievement :=
  (if (currentGlobalRank change <=? 10) && (previousGlobalRank change >? 10) then
     [ {| a_type := "top_10_global";
          a_title := "Top 10 Predictor!";
          a_description :=
            "You've reached rank #" ++ numberToString (currentGlobalRank change)
            ++ " on the global leaderboard!" |} ]
   else [])
  ++
  (if (currentGlobalRank change <=? 100) && (previousGlobalRank change >? 100) then
     [ {| a_type := "top_100_global";
          a_title := "Top 100 Predictor!";
          a_description :=
            "You've entered the top 100 at rank #"
            ++ numberToString (currentGlobalRank change) ++ "!" |} ]
   else [])
  ++
  (if rankChange change >=? 50 then
     [ {| a_type := "big_climb";
          a_title := "Rising Star!";
          a_description :=
            "You've climbed " ++ numberToString (rankChange change)
            ++ " ranks! Keep it up!" |} ]
   else [])
  ++
  (if (currentWeeklyRank change =? 1) && negb (previousWeeklyRank change =? 1) then
     [ {| a_type := "weekly_leader";
          a_title := "Weekly Champion!";
          a_description := "You're #1 on the weekly leaderboard!" |} ]
   else []).

(** ** Effects: transport, repository, clock

    Every repository call and every emit attempt is appended to a trace.  An
    emit either delivers or throws; which one is decided by the bound
    Socket.IO server, modelled as a function of the trace so far and the
    emission.  [Date.now()] returns [clock k] on its [k]-th call. *)

Record Emission := mkEmission {
  room : string;
  eventName : string;
  payload : JsVal
}.

Inductive RepoOp :=
| UpdateAllRanks
| FindMany
| GetGlobal (limit offset : Z)
| GetWeekly (limit offset : Z).

Inductive Effect :=
| RepoCall (op : RepoOp)
| Emit (e : Emission) (delivered : bool).

Definition SocketIOServer := list Effect -> Emission -> bool.

Definition JsError := string.

Inductive Outcome (A : Type) :=
| Returned (a : A)
| Threw (e : JsError).
Arguments Returned {A} a.
Arguments Threw {A} e.

(** ** Service state *)

Record Service := mkService {
  io : option SocketIOServer;
  broadcastTimer : bool;
  lastBroadcastTime : Z;
  previousSnapshots : JsMap RankSnapshot;
  isBroadcasting : bool
}.

Definition BROADCAST_INTERVAL_MS : Z := 5 * 60 * 1000.
Definition MIN_BROADCAST_GAP_MS : Z := 4 * 60 * 1000.

(** The state after the constructor has run. *)
Definition newService : Service :=
  {| io := None; broadcastTimer := false; lastBroadcastTime := 0;
     previousSnapshots := []; isBroadcasting := false |}.

Definition set_io (v : option SocketIOServer) (s : Service) : Service :=
  {| io := v; broadcastTimer := broadcastTimer s;
     lastBroadcastTime := lastBroadcastTime s;
     previousSnapshots := previousSnapshots s;
     isBroadcasting := isBroadcasting s |}.

Definition set_broadcastTimer (v : bool) (s : Service) : Service :=
  {| io := io s; broadcastTimer := v;
     lastBroadcastTime := lastBroadcastTime s;
     previousSnapshots := previousSnapshots s;
     isBroadcasting := isBroadcasting s |}.

Definition set_lastBroadcastTime (v : Z) (s : Service) : Service :=
  {| io := io s; broadcastTimer := broadcastTimer s;
     lastBroadcastTime := v;
     previousSnapshots := previousSnapshots s;
     isBroadcasting := isBroadcasting s |}.

Definition set_previousSnapshots (v : JsMap RankSnapshot) (s : Service) : Service :=
  {| io := io s; broadcastTimer := broadcastTimer s;
     lastBroadcastTime := lastBroadcastTime s;
     previousSnapshots := v;
     isBroadcasting := isBroadcasting s |}.

Definition set_isBroadcasting (v : bool) (s : Service) : Service :=
  {| io := io s; broadcastTimer := broadcastTimer s;
     lastBroadcastTime := lastBroadcastTime s;
     previousSnapshots := previousSnapshots s;
     isBroadcasting := v |}.

Record Machine := mkMachine {
  svc : Service;
  trace : list Effect;
  clockReads : nat
}.

(** ** A state monad with exceptions

    The machine state survives a throw, as it does in JavaScript. *)

Definition M (A : Type) : Type := Machine -> Outcome A * Machine.

Definition ret {A} (a : A) : M A := fun m => (Returned a, m).

Definition bind {A B} (c : M A) (k : A -> M B) : M B :=
  fun m =>
    match c m with
    | (Returned a, m') => k a m'
    | (Threw e, m') => (Threw e, m')
    end.

Definition throw {A} (e : JsError) : M A := fun m => (Threw e, m).

Definition tryCatch {A} (body : M A) (handler : JsError -> M A) : M A :=
  fun m =>
    match body m with
    | (Returned a, m') => (Returned a, m')
    | (Threw e, m') => handler e m'
    end.

Declare Scope js_scope.
Delimit Scope js_scope with js.
Notation "x <- c ;; k" := (bind c (fun x => k))
  (at level 61, c at next level, right associativity) : js_scope.
Notation "c ;; k" := (bind c (fun _ => k))
  (at level 61, right associativity) : js_scope.
Local Open Scope js_scope.

(** [for (const x of xs) body(x)]: a throw leaves the loop. *)
Fixpoint forOf {A} (xs : list A) (body : A -> M unit) : M unit :=
  match xs with
  | [] => ret tt
  | x :: xs' => body x ;; forOf xs' body
  end.

Definition getService : M Service := fun m => (Returned (svc m), m).

Definition modifyService (f : Service -> Service) : M unit :=
  fun m => (Returned tt,
            {| svc := f (svc m); trace := trace m; clockReads := clockReads m |}).

Definition repoCall (op : RepoOp) : M unit :=
  fun m => (Returned tt,
            {| svc := svc m; trace := trace m ++ [RepoCall op];
               clockReads := clockReads m |}).

(** [this.io.to(room).emit(event, payload)].  With [this.io] null the member
    access is a TypeError and nothing reaches the transport. *)
Definition emit (r ev : string) (p : JsVal) : M unit :=
  fun m =>
    match io (svc m) with
    | None => (Threw "TypeError", m)
    | Some server =>
        let e := {| room := r; eventName := ev; payload := p |} in
        let ok := server (trace m) e in
        ((if ok then Returned tt else Threw "emit failed"),
         {| svc := svc m; trace := trace m ++ [Emit e ok];
            clockReads := clockReads m |})
    end.

Section Clock.
Variable clock : nat -> Z.

Definition dateNow : M Z :=
  fun m => (Returned (clock (clockReads m)),
            {| svc := svc m; trace := trace m;
               clockReads := S (clockReads m) |}).
End Clock.

(** ** Payloads *)

Definition rankChangedPayload (change : RankChangeEvent) : JsVal :=
  JObj [ ("type", JStr "rank_changed");
         ("previousGlobalRank", JNum (previousGlobalRank change));
         ("currentGlobalRank", JNum (currentGlobalRank change));
         ("previousWeeklyRank", JNum (previousWeeklyRank change));
         ("currentWeeklyRank", JNum (currentWeeklyRank change));
         ("rankChange", JNum (rankChange change));
         ("improved", JBool (rankChange change >? 0));
         ("timestamp", JNum (timestamp change)) ].

Definition achievementPayload (achievement : Achievement) (ts : Z) : JsVal :=
  JObj [ ("type", JStr "achievement_earned");
         ("achievementType", JStr (a_type achievement));
         ("title", JStr (a_title achievement));
         ("description", JStr (a_description achievement));
         ("timestamp", JNum ts) ].

Definition globalEntry (lb : LeaderboardRow) : JsVal :=
  JObj [ ("userId", JStr (lb_userId lb));
         ("username", JStr (lb_username lb));
         ("rank", JNum (lb_globalRank lb));
         ("pnl", JNum (lb_allTimePnl lb)) ].

Definition weeklyEntry (lb : LeaderboardRow) : JsVal :=
  JObj [ ("userId", JStr (lb_userId lb));
         ("username", JStr (lb_username lb));
         ("rank", JNum (lb_weeklyRank lb));
         ("pnl", JNum (lb_weeklyPnl lb)) ].

Definition leaderboardUpdateEvent (topGlobal topWeekly : list LeaderboardRow)
    (ts : Z) : JsVal :=
  JObj [ ("type", JStr "leaderboard_updated");
         ("topGlobal", JArr (map globalEntry topGlobal));
         ("topWeekly", JArr (map weeklyEntry topWeekly));
         ("timestamp", JNum ts) ].

Definition userRoom (uid : string) : string := "user:" ++ uid.

(** The body of [getCurrentSnapshot] after [findMany] has answered. *)
Definition buildSnapshot (leaderboards : list LeaderboardRow) (ts : Z)
  : JsMap RankSnapshot :=
  fold_left
    (fun snapshot lb =>
       Map_set snapshot (lb_userId lb)
         {| rs_userId := lb_userId lb;
            globalRank := lb_globalRank lb;
            weeklyRank := lb_weeklyRank lb;
            allTimePnl := lb_allTimePnl lb;
            weeklyPnl := lb_weeklyPnl lb;
            rs_timestamp := ts |})
    leaderboards [].

(** ** Fan-out *)

Definition isBound (s : Service) : bool :=
  match io s with Some _ => true | None => false end.

(** The body of the loop in [broadcastPrivateRankChanges]. *)
Definition sendRankChange (change : RankChangeEvent) : M unit :=
  tryCatch
    (emit (userRoom (userId change)) "rank_changed" (rankChangedPayload change))
    (fun _ => ret tt).

Definition broadcastPrivateRankChanges (changes : list RankChangeEvent) : M unit :=
  s <- getService ;;
  if negb (isBound s) then ret tt
  else forOf changes sendRankChange.

Section Broadcaster.
Variable clock : nat -> Z.

(** The body of the inner loop in [broadcastAchievements]. *)
Definition sendAchievement (change : RankChangeEvent)
    (achievement : Achievement) : M unit :=
  ts <- dateNow clock ;;
  emit (userRoom (userId change)) "achievement_earned"
       (achievementPayload achievement ts).

(** The body of the outer loop: one [try]/[catch] per change. *)
Definition sendAchievements (change : RankChangeEvent) : M unit :=
  tryCatch
    (let achievements := detectAchievements change in
     forOf achievements (sendAchievement change))
    (fun _ => ret tt).

Definition broadcastAchievements (changes : list RankChangeEvent) : M unit :=
  s <- getService ;;
  if negb (isBound s) then ret tt
  else forOf changes sendAchievements.

(** *** The cycle as a resumable computation

    [broadcastRankChanges] is an async function: it runs until an [await],
    suspends, and is resumed with the awaited result.  A [Stage] names the
    [await] a suspended invocation is parked at, together with the locals
    that are live there.  [getCurrentSnapshot] is async itself, so its
    caller is resumed one turn after its body has returned
    ([AwaitCurrentSnapshot]); a rejection of [findMany] passes through it
    unchanged and is delivered to the cycle's [catch] directly. *)

Inductive Stage :=
| AwaitUpdateAllRanks
| AwaitFindMany
| AwaitCurrentSnapshot (currentSnapshot : JsMap RankSnapshot)
| AwaitPrivate (currentSnapshot : JsMap RankSnapshot)
    (rankChanges : list RankChangeEvent)
| AwaitGetGlobal (currentSnapshot : JsMap RankSnapshot)
    (rankChanges : list RankChangeEvent)
| AwaitGetWeekly (currentSnapshot : JsMap RankSnapshot)
    (rankChanges : list RankChangeEvent) (topGlobal : list LeaderboardRow)
| AwaitPublic (currentSnapshot : JsMap RankSnapshot)
    (rankChanges : list RankChangeEvent)
| AwaitAchievements (currentSnapshot : JsMap RankSnapshot)
    (rankChanges : list RankChangeEvent).

Record Task := mkTask { now : Z; stage : Stage }.

(** What an [await] resumes with: a repository promise settles with rows,
    with nothing, or with a rejection; the promise of one of the service's
    own async methods, which has already run to its end, just settles. *)
Inductive Response :=
| Settled
| FulfilledVoid
| Fulfilled (rows : list LeaderboardRow)
| Rejected (e : JsError).

Inductive Next :=
| Suspend (k : Stage)
| Complete.

(** The [try]/[catch] inside [broadcastPublicLeaderboardUpdate]: whatever
    is thrown there ends that method normally. *)
Definition publicTry (currentSnapshot : JsMap RankSnapshot)
    (rankChanges : list RankChangeEvent) (body : M Next) : M Next :=
  tryCatch body (fun _ => ret (Suspend (AwaitPublic currentSnapshot rankChanges))).

(** The code that runs when the invocation parked at [k] is resumed with
    [r], up to the next [await]; [None] when [r] is not a result the
    awaited promise can have. *)
Definition continuation (now : Z) (k : Stage) (r : Response) : option (M Next) :=
  match k, r with
  | AwaitUpdateAllRanks, FulfilledVoid =>
      Some (repoCall FindMany ;; ret (Suspend AwaitFindMany))
  | AwaitUpdateAllRanks, Rejected e => Some (throw e)
  | AwaitFindMany, Fulfilled leaderboards =>
      Some (ts <- dateNow clock ;;
            ret (Suspend (AwaitCurrentSnapshot (buildSnapshot leaderboards ts))))
  | AwaitFindMany, Rejected e => Some (throw e)
  | AwaitCurrentSnapshot currentSnapshot, Settled =>
      Some (s <- getService ;;
            let rankChanges :=
              detectRankChanges (previousSnapshots s) currentSnapshot in
            broadcastPrivateRankChanges rankChanges ;;
            ret (Suspend (AwaitPrivate currentSnapshot rankChanges)))
  | AwaitPrivate currentSnapshot rankChanges, Settled =>
      Some (s <- getService ;;
            if negb (isBound s)
            then ret (Suspend (AwaitPublic currentSnapshot rankChanges))
            else publicTry currentSnapshot rankChanges
                   (repoCall (GetGlobal 10 0) ;;
                    ret (Suspend (AwaitGetGlobal currentSnapshot rankChanges))))
  | AwaitGetGlobal currentSnapshot rankChanges, Fulfilled topGlobal =>
      Some (publicTry currentSnapshot rankChanges
              (repoCall (GetWeekly 10 0) ;;
               ret (Suspend (AwaitGetWeekly currentSnapshot rankChanges topGlobal))))
  | AwaitGetGlobal currentSnapshot rankChanges, Rejected e =>
      Some (publicTry currentSnapshot rankChanges (throw e))
  | AwaitGetWeekly currentSnapshot rankChanges topGlobal, Fulfilled topWeekly =>
      Some (publicTry currentSnapshot rankChanges
              (ts <- dateNow clock ;;
               emit "leaderboard:global" "leaderboard_updated"
                    (leaderboardUpdateEvent topGlobal topWeekly ts) ;;
               ret (Suspend (AwaitPublic currentSnapshot rankChanges))))
  | AwaitGetWeekly currentSnapshot rankChanges _, Rejected e =>
      Some (publicTry currentSnapshot rankChanges (throw e))
  | AwaitPublic currentSnapshot rankChanges, Settled =>
      Some (broadcastAchievements rankChanges ;;
            ret (Suspend (AwaitAchievements currentSnapshot rankChanges)))
  | AwaitAchievements currentSnapshot _, Settled =>
      Some (modifyService (set_previousSnapshots currentSnapshot) ;;
            modifyService (set_lastBroadcastTime now) ;;
            ret Complete)
  | _, _ => None
  end.

(** The [finally] block of the cycle. *)
Definition cycleFinally : M (option Task) :=
  modifyService (set_isBroadcasting false) ;; ret None.

(** The [try { ... } catch { log } finally { isBroadcasting = false }]
    around the cycle, applied to one segment of it.  The result is the
    invocation parked at its next [await], or [None] once it has ended. *)
Definition inCycleTry (now : Z) (segment : M Next) : M (option Task) :=
  fun m =>
    match segment m with
    | (Returned (Suspend k), m') =>
        (Returned (Some {| now := now; stage := k |}), m')
    | (Returned Complete, m') => cycleFinally m'
    | (Threw _, m') => cycleFinally m'
    end.

(** [broadcastRankChanges()] from its first line to its first [await]. *)
Definition broadcastRankChanges : M (option Task) :=
  now <- dateNow clock ;;
  s <- getService ;;
  let timeSinceLastBroadcast := now - lastBroadcastTime s in
  if timeSinceLastBroadcast <? MIN_BROADCAST_GAP_MS then ret None
  else if isBroadcasting s then ret None
  else
    modifyService (set_isBroadcasting true) ;;
    inCycleTry now
      (repoCall UpdateAllRanks ;; ret (Suspend AwaitUpdateAllRanks)).

(** Resuming a parked invocation. *)
Definition resume (t : Task) (r : Response) : option (M (option Task)) :=
  match continuation (now t) (stage t) r with
  | Some segment => Some (inCycleTry (now t) segment)
  | None => None
  end.

(** *** The other public methods *)

Definition initialize (server : SocketIOServer) : M unit :=
  modifyService (set_io (Some server)).

(** [start()] returns the invocation it launched ([void
    this.broadcastRankChanges()]), if that one got as far as an [await]. *)
Definition start : M (option Task) :=
  s <- getService ;;
  if broadcastTimer s then ret None
  else
    t <- broadcastRankChanges ;;
    modifyService (set_broadcastTimer true) ;;
    ret t.

Definition stop : M unit :=
  s <- getService ;;
  if broadcastTimer s then modifyService (set_broadcastTimer false)
  else ret tt.

Record Status := mkStatus {
  st_isRunning : bool;
  st_isBroadcasting : bool;
  st_lastBroadcastTime : Z;
  st_snapshotSize : Z
}.

Definition getStatus (s : Service) : Status :=
  {| st_isRunning := broadcastTimer s;
     st_isBroadcasting := isBroadcasting s;
     st_lastBroadcastTime := lastBroadcastTime s;
     st_snapshotSize := Map_size (previousSnapshots s) |}.

(** *** The service under arbitrary interleavings

    The process is single-threaded: between two [await]s an invocation runs
    alone, and at an [await] any other call may run.  A [System] is the
    machine together with the invocations that are parked. *)

Record System := mkSystem {
  machine : Machine;
  parked : list Task
}.

Inductive Action :=
| CallBroadcastRankChanges
| CallInitialize (server : SocketIOServer)
| CallStart
| CallStop
| TimerFires
| Resume (i : nat) (r : Response).

Definition addTask (t : option Task) (ts : list Task) : list Task :=
  match t with
  | Some t' => ts ++ [t']
  | None => ts
  end.

Fixpoint removeNth {A} (i : nat) (l : list A) : list A :=
  match i, l with
  | _, [] => []
  | O, _ :: l' => l'
  | S i', x :: l' => x :: removeNth i' l'
  end.

(** Calls made from outside never see an exception leave the service, so a
    [Threw] outcome of a public method is not a transition. *)
Definition launch (c : M (option Task)) (sys : System) : option System :=
  match c (machine sys) with
  | (Returned t, m') => Some {| machine := m'; parked := addTask t (parked sys) |}
  | (Threw _, _) => None
  end.

Definition step (a : Action) (sys : System) : option System :=
  match a with
  | CallBroadcastRankChanges => launch broadcastRankChanges sys
  | CallInitialize server =>
      launch (initialize server ;; ret None) sys
  | CallStart => launch start sys
  | CallStop => launch (stop ;; ret None) sys
  | TimerFires =>
      if broadcastTimer (svc (machine sys))
      then launch broadcastRankChanges sys
      else None
  | Resume i r =>
      match nth_error (parked sys) i with
      | None => None
      | Some t =>
          match resume t r with
          | None => None
          | Some c =>
              launch c {| machine := machine sys;
                          parked := removeNth i (parked sys) |}
          end
      end
  end.

Fixpoint run (acts : list Action) (sys : System) : option System :=
  match acts with
  | [] => Some sys
  | a :: acts' =>
      match step a sys with
      | Some sys' => run acts' sys'
      | None => None
      end
  end.

Definition initialSystem : System :=
  {| machine := {| svc := newService; trace := []; clockReads := 0 |};
     parked := [] |}.

Definition Reachable (sys : System) : Prop :=
  exists acts, run acts initialSystem = Some sys.

(** *** One invocation run alone

    [SourceScript] fixes what the repository answers to each of its four
    calls; [respond] hands the parked invocation the answer it waits for. *)

Record SourceScript := mkScript {
  onUpdateAllRanks : Outcome unit;
  onFindMany : Outcome (list LeaderboardRow);
  onGetGlobal : Outcome (list LeaderboardRow);
  onGetWeekly : Outcome (list LeaderboardRow)
}.

Definition rowsResponse (o : Outcome (list LeaderboardRow)) : Response :=
  match o with
  | Returned rows => Fulfilled rows
  | Threw e => Rejected e
  end.

Definition respond (script : SourceScript) (k : Stage) : Response :=
  match k with
  | AwaitUpdateAllRanks =>
      match onUpdateAllRanks script with
      | Returned _ => FulfilledVoid
      | Threw e => Rejected e
      end
  | AwaitFindMany => rowsResponse (onFindMany script)
  | AwaitGetGlobal _ _ => rowsResponse (onGetGlobal script)
  | AwaitGetWeekly _ _ _ => rowsResponse (onGetWeekly script)
  | AwaitCurrentSnapshot _ | AwaitPrivate _ _ | AwaitPublic _ _
  | AwaitAchievements _ _ => Settled
  end.

(** Resume the invocation until it ends; [None] when [fuel] resumptions
    were not enough or the invocation threw. *)
Fixpoint drive (fuel : nat) (script : SourceScript) (t : option Task)
    (m : Machine) : option Machine :=
  match t with
  | None => Some m
  | Some t' =>
      match fuel with
      | O => None
      | S fuel' =>
          match resume t' (respond script (stage t')) with
          | None => None
          | Some c =>
              match c m with
              | (Returned t'', m') => drive fuel' script t'' m'
              | (Threw _, _) => None
              end
          end
      end
  end.

(** A whole call of [broadcastRankChanges()], awaited to its end. *)
Definition runCycle (script : SourceScript) (m : Machine) : option Machine :=
  match broadcastRankChanges m with
  | (Returned t, m') => drive 8 script t m'
  | (Threw _, _) => None
  end.

End Broadcaster.

(** ** Vocabulary of the statements *)

Definition magnitude (e : RankChangeEvent) : Z := Z.abs (rankChange e).

Definition descendingBy {A} (key : A -> Z) (a b : A) : Prop := key a >= key b.

(** The emissions a trace attempted, delivered or not, in order. *)
Definition attempted (tr : list Effect) : list Emission :=
  flat_map (fun eff => match eff with Emit e _ => [e] | RepoCall _ => [] end) tr.

Definition rankChangedEmission (change : RankChangeEvent) : Emission :=
  {| room := userRoom (userId change);
     eventName := "rank_changed";
     payload := rankChangedPayload change |}.

Definition achievementEmission (uid : string) (achievement : Achievement)
    (ts : Z) : Emission :=
  {| room := userRoom uid;
     eventName := "achievement_earned";
     payload := achievementPayload achievement ts |}.


(** The number of cycles a trace shows to have begun: each cycle opens with
    exactly one [updateAllRanks()] and nothing else calls it. *)
Definition cyclesStarted (tr : list Effect) : nat :=
  List.length
    (filter (fun eff => match eff with RepoCall UpdateAllRanks => true | _ => false end)
       tr).

(** How many resumptions an invocation parked at a stage can still need. *)
Definition stageRank (k : Stage) : nat :=
  match k with
  | AwaitUpdateAllRanks => 8
  | AwaitFindMany => 7
  | AwaitCurrentSnapshot _ => 6
  | AwaitPrivate _ _ => 5
  | AwaitGetGlobal _ _ => 4
  | AwaitGetWeekly _ _ _ => 3
  | AwaitPublic _ _ => 2
  | AwaitAchievements _ _ => 1
  end.

(** The local [currentSnapshot], once it has been assigned. *)
Definition carried (k : Stage) : option (JsMap RankSnapshot) :=
  match k with
  | AwaitUpdateAllRanks | AwaitFindMany => None
  | AwaitCurrentSnapshot s | AwaitPrivate s _ | AwaitGetGlobal s _
  | AwaitGetWeekly s _ _ | AwaitPublic s _ | AwaitAchievements s _ => Some s
  end.

Definition publicEmission (topGlobal topWeekly : list LeaderboardRow) (ts : Z)
  : Emission :=
  {| room := "leaderboard:global";
     eventName := "leaderboard_updated";
     payload := leaderboardUpdateEvent topGlobal topWeekly ts |}.

(** What one resumption may put on the trace. *)
Definition segmentEffect (k : Stage) (r : Response) (eff : Effect) : Prop :=
  match eff with
  | RepoCall _ => True
  | Emit e _ =>
      (exists uid, room e = userRoom uid)
      \/ (exists snap ch tg tw ts,
            k = AwaitGetWeekly snap ch tg /\ r = Fulfilled tw
            /\ e = publicEmission tg tw ts)
  end.

(** What a whole cycle may put on the trace, given the repository's answers. *)
Definition cycleEffect (script : SourceScript) (eff : Effect) : Prop :=
  match eff with
  | RepoCall _ => True
  | Emit e _ =>
      (exists uid, room e = userRoom uid)
      \/ (exists tg tw ts,
            onGetGlobal script = Returned tg /\ onGetWeekly script = Returned tw
            /\ e = publicEmission tg tw ts)
  end.

(** The local [topGlobal] is what the repository answered. *)
Definition consistent (script : SourceScript) (k : Stage) : Prop :=
  match k with
  | AwaitGetWeekly _ _ tg => onGetGlobal script = Returned tg
  | _ => True
  end.

(** At most one invocation is inside the cycle, and the flag says so. *)
Definition SingleFlight (sys : System) : Prop :=
  match parked sys with
  | [] => isBroadcasting (svc (machine sys)) = false
  | [_] => isBroadcasting (svc (machine sys)) = true
  | _ => False
  end.

(** ** Sample data *)

Definition sampleClock (n : nat) : Z := 1700000000000 + Z.of_nat n.

Definition deliverAll : SocketIOServer := fun _ _ => true.

(** A transport on which every emit to the room of [uid] throws. *)
Definition failingFor (uid : string) : SocketIOServer :=
  fun _ e => negb (String.eqb (room e) (userRoom uid)).

Definition rowsBefore : list LeaderboardRow :=
  [ mkRow "U1" "ann" 12 4 900 40;
    mkRow "U2" "bob" 200 9 100 10;
    mkRow "U3" "cat" 3 3 5000 70;
    mkRow "U4" "dan" 7 2 2500 90;
    mkRow "U5" "eve" 16 1 800 95 ].

Definition rowsAfter : list LeaderboardRow :=
  [ mkRow "U1" "ann" 8 4 1200 40;
    mkRow "U2" "bob" 140 9 400 10;
    mkRow "U3" "cat" 3 3 5000 70;
    mkRow "U4" "dan" 7 1 2500 99;
    mkRow "U5" "eve" 20 2 800 95;
    mkRow "U6" "fay" 1 5 9000 60 ].

Definition snapshotBefore : JsMap RankSnapshot := buildSnapshot rowsBefore 1000.
Definition snapshotAfter : JsMap RankSnapshot := buildSnapshot rowsAfter 2000.

(** The same entries as [snapshotBefore], inserted in the opposite order. *)
Definition snapshotBeforeReversed : JsMap RankSnapshot :=
  buildSnapshot (rev rowsBefore) 1000.

Definition allAnswer (rows : list LeaderboardRow) : SourceScript :=
  {| onUpdateAllRanks := Returned tt;
     onFindMany := Returned rows;
     onGetGlobal := Returned rows;
     onGetWeekly := Returned rows |}.

Definition recomputeFails : SourceScript :=
  {| onUpdateAllRanks := Threw "connection lost";
     onFindMany := Returned rowsAfter;
     onGetGlobal := Returned rowsAfter;
     onGetWeekly := Returned rowsAfter |}.


Definition freshMachine (server : option SocketIOServer) : Machine :=
  {| svc := set_io server newService; trace := []; clockReads := 0 |}.

(** A machine whose service has [snapshotBefore] stored from a cycle that
    started five minutes before [sampleClock 0]. *)
Definition warmMachine (server : option SocketIOServer) : Machine :=
  {| svc := set_previousSnapshots snapshotBefore
              (set_lastBroadcastTime (sampleClock 0 - BROADCAST_INTERVAL_MS)
                 (set_io server newService));
     trace := []; clockReads := 0 |}.

(** Properties of computations, closed under the monad's combinators. *)

Definition Preserves {X A} (f : Service -> X) (c : M A) : Prop :=
  forall m, f (svc (snd (c m))) = f (svc m).

Definition Emits {A} (P : Effect -> Prop) (c : M A) : Prop :=
  forall m, exists added,
    trace (snd (c m)) = (trace m ++ added)%list /\ Forall P added.

Definition NoThrow {A} (c : M A) : Prop :=
  forall m, exists a, fst (c m) = Returned a.

(** ** Vocabulary of the further properties *)

(** The snapshot entry [getCurrentSnapshot] stores for a row. *)
Definition entryOf (ts : Z) (lb : LeaderboardRow) : RankSnapshot :=
  {| rs_userId := lb_userId lb;
     globalRank := lb_globalRank lb;
     weeklyRank := lb_weeklyRank lb;
     allTimePnl := lb_allTimePnl lb;
     weeklyPnl := lb_weeklyPnl lb;
     rs_timestamp := ts |}.

(** The last row of [rows] that belongs to [uid]. *)
Definition lastRowOf (uid : string) (rows : list LeaderboardRow)
  : option LeaderboardRow :=
  find (fun lb => String.eqb uid (lb_userId lb)) (rev rows).

(** Whether the loop of [detectRankChanges] pushes an event for an entry. *)
Definition rankMoved (previous : JsMap RankSnapshot)
    (entry : string * RankSnapshot) : bool :=
  match Map_get previous (fst entry) with
  | None => false
  | Some p =>
      negb (globalRank (snd entry) =? globalRank p)
      || negb (weeklyRank (snd entry) =? weeklyRank p)
  end.

(** The three kinds of message, in the order the cycle sends them. *)
Definition phaseOf (e : Emission) : nat :=
  if String.eqb (eventName e) "rank_changed" then 0
  else if String.eqb (eventName e) "leaderboard_updated" then 1
  else 2.

(** The earliest kind of message an invocation parked at a stage can still
    send. *)
Definition minPhase (k : Stage) : nat :=
  match k with
  | AwaitUpdateAllRanks | AwaitFindMany | AwaitCurrentSnapshot _ => 0
  | AwaitPrivate _ _ | AwaitGetGlobal _ _ | AwaitGetWeekly _ _ _ => 1
  | AwaitPublic _ _ => 2
  | AwaitAchievements _ _ => 3
  end.

Definition isPublicEmit (eff : Effect) : bool :=
  match eff with
  | Emit e _ => String.eqb (room e) "leaderboard:global"
  | RepoCall _ => false
  end.

(** The number of messages a trace shows sent to the shared room. *)
Definition publicUpdates (tr : list Effect) : nat :=
  List.length (filter isPublicEmit tr).

(** Whether an invocation parked at a stage has its public update still
    ahead of it. *)
Definition publicAhead (t : Task) : nat :=
  if (3 <=? stageRank (stage t))%nat then 1 else 0.

Definition publicsAhead (ts : list Task) : nat :=
  fold_right (fun t n => (publicAhead t + n)%nat) 0%nat ts.

(** A snapshot that [getCurrentSnapshot] built from some repository answer. *)
Definition Built (snap : JsMap RankSnapshot) : Prop :=
  exists rows ts, snap = buildSnapshot rows ts.

(** Every snapshot held by the service or by a parked invocation was built by
    [getCurrentSnapshot]. *)
Definition SnapshotsBuilt (sys : System) : Prop :=
  Built (previousSnapshots (svc (machine sys)))
  /\ Forall (fun t => forall snap, carried (stage t) = Some snap -> Built snap)
            (parked sys).

(** The public updates sent so far, plus those the parked invocations can
    still send, are covered by the cycles started. *)
Definition PublicCovered (sys : System) : Prop :=
  (publicUpdates (trace (machine sys)) + publicsAhead (parked sys)
   <= cyclesStarted (trace (machine sys)))%nat.

(** Rows in which one user is listed twice. *)
Definition rowsWithRepeat : list LeaderboardRow :=
  [ mkRow "U1" "ann" 12 4 900 40;
    mkRow "U2" "bob" 200 9 100 10;
    mkRow "U1" "ann" 9 3 950 45 ].

(** The local [rankChanges], once it has been assigned. *)
Definition changesOf (k : Stage) : option (list RankChangeEvent) :=
  match k with
  | AwaitUpdateAllRanks | AwaitFindMany | AwaitCurrentSnapshot _ => None
  | AwaitPrivate _ ch | AwaitGetGlobal _ ch | AwaitGetWeekly _ ch _
  | AwaitPublic _ ch | AwaitAchievements _ ch => Some ch
  end.

(** The local [rankChanges] is the diff of the stored snapshot against the
    local [currentSnapshot]. *)
Definition diffCarried (previous : JsMap RankSnapshot) (k : Stage) : Prop :=
  forall snap ch,
    carried k = Some snap -> changesOf k = Some ch ->
    ch = detectRankChanges previous snap.

(** An effect that reaches nobody but the shared room and the users of
    [changes]. *)
Definition addressedTo (changes : list RankChangeEvent) (eff : Effect) : Prop :=
  match eff with
  | RepoCall _ => True
  | Emit e _ =>
      room e = "leaderboard:global"
      \/ exists c, In c changes /\ room e = userRoom (userId c)
  end.

(** The kind of message each stage's resumption sends, if it sends any. *)
Definition stageEmits (k : Stage) (eff : Effect) : Prop :=
  match eff with
  | RepoCall _ => True
  | Emit e _ =>
      match k with
      | AwaitCurrentSnapshot _ => eventName e = "rank_changed"
      | AwaitGetWeekly _ _ _ => eventName e = "leaderboard_updated"
      | AwaitPublic _ _ => eventName e = "achievement_earned"
      | _ => False
      end
  end.

(** One whole cycle, step by step, as the environment may schedule it. *)
Definition oneCycle (rows : list LeaderboardRow) : list Action :=
  [ CallInitialize deliverAll;
    CallStart;
    Resume 0 FulfilledVoid;
    Resume 0 (Fulfilled rows);
    Resume 0 Settled;
    Resume 0 Settled;
    Resume 0 (Fulfilled rows);
    Resume 0 (Fulfilled rows);
    Resume 0 Settled;
    Resume 0 Settled ].

(** ** Vocabulary of a cycle's trace *)





(** The number of distinct user ids among rows. *)
Definition distinctUsers (rows : list LeaderboardRow) : nat :=
  List.length (nodup string_dec (map lb_userId rows)).

(** * Properties *)

(** ** Maps *)

Section JsMapFacts.
Context {V : Type}.
Implicit Types (m : JsMap V) (k : string) (v : V).

Lemma Map_get_Some_In m k v : Map_get m k = Some v -> In (k, v) m.
Proof.
  induction m as [|[k' v'] m IH]; simpl; [discriminate|].
  destruct (String.eqb_spec k k') as [->|Hne].
  - intros [= ->]. now left.
  - intro H. right. auto.
Qed.

Lemma Map_get_In m k v : MapWf m -> In (k, v) m -> Map_get m k = Some v.
Proof.
  unfold MapWf, Map_keys.
  induction m as [|[k' v'] m IH]; simpl; [easy|].
  intros Hnd [Heq|Hin].
  - inversion Heq; subst. now rewrite String.eqb_refl.
  - inversion Hnd as [|? ? Hnotin Hnd']; subst.
    destruct (String.eqb_spec k k') as [->|Hne]; [|auto].
    exfalso. apply Hnotin. now apply (in_map fst) in Hin.
Qed.

Lemma Map_keys_set m k v :
  Map_keys (Map_set m k v) =
  if existsb (String.eqb k) (Map_keys m) then Map_keys m
  else (Map_keys m ++ [k])%list.
Proof.
  unfold Map_keys.
  induction m as [|[k' v'] m IH]; simpl; [reflexivity|].
  destruct (String.eqb_spec k k') as [->|Hne]; simpl; [reflexivity|].
  rewrite IH. now destruct (existsb _ _).
Qed.

Lemma Map_set_wf m k v : MapWf m -> MapWf (Map_set m k v).
Proof.
  unfold MapWf. rewrite Map_keys_set.
  destruct (existsb (String.eqb k) (Map_keys m)) eqn:Hex; [easy|].
  intro Hnd. apply NoDup_rev in Hnd.
  rewrite <- (rev_involutive (Map_keys m ++ [k])%list), rev_app_distr.
  apply NoDup_rev. simpl. constructor; [|assumption].
  rewrite <- in_rev. intro Hin.
  assert (existsb (String.eqb k) (Map_keys m) = true) as Habs.
  { apply existsb_exists. exists k. split; [assumption|apply String.eqb_refl]. }
  congruence.
Qed.
End JsMapFacts.

Lemma buildSnapshot_wf leaderboards ts : MapWf (buildSnapshot leaderboards ts).
Proof.
  unfold buildSnapshot.
  assert (forall acc : JsMap RankSnapshot, MapWf acc ->
            MapWf (fold_left
              (fun snapshot lb =>
                 Map_set snapshot (lb_userId lb)
                   {| rs_userId := lb_userId lb;
                      globalRank := lb_globalRank lb;
                      weeklyRank := lb_weeklyRank lb;
                      allTimePnl := lb_allTimePnl lb;
                      weeklyPnl := lb_weeklyPnl lb;
                      rs_timestamp := ts |}) leaderboards acc)) as Hgen.
  { induction leaderboards as [|lb lbs IH]; simpl; [easy|].
    intros acc Hacc. apply IH. now apply Map_set_wf. }
  apply Hgen. constructor.
Qed.

(** ** The stable sort *)

Section ArraySortFacts.
Context {A : Type}.
Variable cmp : A -> A -> Z.
Variable key : A -> Z.
Hypothesis cmp_key : forall a b, cmp a b = key b - key a.

Lemma sortInsert_perm x l : Permutation (sortInsert cmp x l) (x :: l).
Proof.
  induction l as [|y l IH]; simpl; [reflexivity|].
  destruct (cmp x y <=? 0); [reflexivity|].
  rewrite IH. apply perm_swap.
Qed.

Lemma Array_sort_perm l : Permutation (Array_sort cmp l) l.
Proof.
  induction l as [|x l IH]; simpl; [reflexivity|].
  rewrite sortInsert_perm. now constructor.
Qed.

Lemma sortInsert_sorted x l :
  StronglySorted (descendingBy key) l -> StronglySorted (descendingBy key) (sortInsert cmp x l).
Proof.
  induction l as [|y l IH]; simpl; intro Hs.
  - repeat constructor.
  - inversion Hs as [|? ? Hs' Hall]; subst.
    destruct (Z.leb_spec (cmp x y) 0) as [Hle|Hgt]; rewrite cmp_key in *.
    + constructor; [assumption|].
      constructor; [unfold descendingBy; lia|].
      eapply Forall_impl; [|exact Hall].
      unfold descendingBy. intros; lia.
    + constructor; [auto|].
      eapply Permutation_Forall; [symmetry; apply sortInsert_perm|].
      constructor; [unfold descendingBy; lia|assumption].
Qed.

Lemma Array_sort_sorted l : StronglySorted (descendingBy key) (Array_sort cmp l).
Proof.
  induction l as [|x l IH]; simpl; [constructor|].
  now apply sortInsert_sorted.
Qed.

(** Stability: elements with the same key keep their relative order. *)
Lemma sortInsert_stable k x l :
  filter (fun a => key a =? k) (sortInsert cmp x l)
  = filter (fun a => key a =? k) (x :: l).
Proof.
  induction l as [|y l IH]; [reflexivity|].
  cbn [sortInsert].
  destruct (Z.leb_spec (cmp x y) 0) as [Hle|Hgt]; [reflexivity|].
  rewrite cmp_key in Hgt.
  cbn [filter] in *. rewrite IH.
  destruct (Z.eqb_spec (key y) k), (Z.eqb_spec (key x) k);
    try reflexivity; lia.
Qed.

Lemma Array_sort_stable k l :
  filter (fun a => key a =? k) (Array_sort cmp l)
  = filter (fun a => key a =? k) l.
Proof.
  induction l as [|x l IH]; [reflexivity|].
  cbn [Array_sort fold_right]. fold (Array_sort cmp l).
  rewrite sortInsert_stable. cbn [filter]. now rewrite IH.
Qed.
(** A list that is sorted and keeps every key class in order is determined
by these two properties, so any stable sort gives the result of
[Array_sort]. *)
Lemma stable_sorted_unique l1 : forall l2,
  StronglySorted (descendingBy key) l1 ->
  StronglySorted (descendingBy key) l2 ->
  (forall k, filter (fun a => key a =? k) l1 = filter (fun a => key a =? k) l2) ->
  l1 = l2.
Proof.
  induction l1 as [|x l1 IH]; intros [|y l2] S1 S2 Hf.
  - reflexivity.
  - specialize (Hf (key y)). cbn in Hf. rewrite Z.eqb_refl in Hf. discriminate.
  - specialize (Hf (key x)). cbn in Hf. rewrite Z.eqb_refl in Hf. discriminate.
  - inversion S1 as [|? ? S1' F1]; inversion S2 as [|? ? S2' F2]; subst.
    rewrite Forall_forall in F1, F2.
    assert (key y >= key x) as Hyx.
    { assert (In x (filter (fun a => key a =? key x) (y :: l2))) as Hin.
      { rewrite <- Hf. cbn. rewrite Z.eqb_refl. now left. }
      apply filter_In in Hin as [[->|Hin] _]; [lia|]. now apply F2. }
    assert (key x >= key y) as Hxy.
    { assert (In y (filter (fun a => key a =? key y) (x :: l1))) as Hin.
      { rewrite Hf. cbn. rewrite Z.eqb_refl. now left. }
      apply filter_In in Hin as [[->|Hin] _]; [lia|]. now apply F1. }
    assert (x = y) as ->.
    { specialize (Hf (key x)). cbn in Hf. rewrite Z.eqb_refl in Hf.
      replace (key y =? key x) with true in Hf by (symmetry; apply Z.eqb_eq; lia).
      now injection Hf. }
    f_equal. apply IH; auto.
    intro k. specialize (Hf k). cbn in Hf.
    destruct (key y =? k); [now injection Hf|assumption].
Qed.

Lemma Array_sort_unique l l' :
  StronglySorted (descendingBy key) l' ->
  (forall k, filter (fun a => key a =? k) l' = filter (fun a => key a =? k) l) ->
  l' = Array_sort cmp l.
Proof.
  intros Hs Hf. apply stable_sorted_unique; [assumption|apply Array_sort_sorted|].
  intro k. now rewrite Array_sort_stable.
Qed.
End ArraySortFacts.

(** ** The diff *)

Lemma byMagnitude_key a b : byMagnitude a b = magnitude b - magnitude a.
Proof. reflexivity. Qed.

Lemma changeFor_inv prev uid c e :
  In e (changeFor prev (uid, c)) ->
  exists p,
    Map_get prev uid = Some p
    /\ (globalRank c <> globalRank p \/ weeklyRank c <> weeklyRank p)
    /\ e = {| userId := uid;
              previousGlobalRank := globalRank p;
              currentGlobalRank := globalRank c;
              previousWeeklyRank := weeklyRank p;
              currentWeeklyRank := weeklyRank c;
              rankChange := globalRank p - globalRank c;
              timestamp := rs_timestamp c |}.
Proof.
  unfold changeFor.
  destruct (Map_get prev uid) as [p|]; [|easy].
  destruct (Z.eqb_spec (globalRank c) (globalRank p)) as [Hg|Hg];
  destruct (Z.eqb_spec (weeklyRank c) (weeklyRank p)) as [Hw|Hw];
    simpl; try easy; intros [<-|[]]; exists p; auto.
Qed.

Lemma collectChanges_In prev cur e :
  In e (collectChanges prev cur) <->
  exists uid c, In (uid, c) cur /\ In e (changeFor prev (uid, c)).
Proof.
  unfold collectChanges, Map_entries. rewrite in_flat_map. split.
  - intros [[uid c] [Hin He]]. eauto.
  - intros (uid & c & Hin & He). eauto.
Qed.

Lemma detectRankChanges_In prev cur e :
  In e (detectRankChanges prev cur) <-> In e (collectChanges prev cur).
Proof.
  unfold detectRankChanges. split; apply Permutation_in.
  - apply Array_sort_perm.
  - symmetry. apply Array_sort_perm.
Qed.

(** Every event comes from a user present in both snapshots whose ranks
    differ, and carries that user's ranks. *)
Lemma detectRankChanges_inv prev cur e :
  In e (detectRankChanges prev cur) ->
  exists c p,
    In (userId e, c) cur /\ Map_get prev (userId e) = Some p
    /\ (globalRank c <> globalRank p \/ weeklyRank c <> weeklyRank p)
    /\ previousGlobalRank e = globalRank p
    /\ currentGlobalRank e = globalRank c
    /\ previousWeeklyRank e = weeklyRank p
    /\ currentWeeklyRank e = weeklyRank c
    /\ rankChange e = globalRank p - globalRank c.
Proof.
  rewrite detectRankChanges_In, collectChanges_In.
  intros (uid & c & Hin & He).
  apply changeFor_inv in He as (p & Hp & Hdiff & ->). simpl.
  exists c, p. repeat split; auto.
Qed.

(** ** The monad's combinators *)

Section Combinators.
Context {X : Type} (f : Service -> X) (P : Effect -> Prop).

Lemma Preserves_ret {A} (a : A) : Preserves f (ret a).
Proof. intro m. reflexivity. Qed.

Lemma Preserves_throw {A} e : Preserves f (@throw A e).
Proof. intro m. reflexivity. Qed.

Lemma Preserves_bind {A B} (c : M A) (k : A -> M B) :
  Preserves f c -> (forall a, Preserves f (k a)) -> Preserves f (bind c k).
Proof.
  intros Hc Hk m. unfold bind. specialize (Hc m).
  destruct (c m) as [[a|e] m1]; simpl in *; [rewrite Hk|]; assumption.
Qed.

Lemma Preserves_tryCatch {A} (c : M A) (h : JsError -> M A) :
  Preserves f c -> (forall e, Preserves f (h e)) -> Preserves f (tryCatch c h).
Proof.
  intros Hc Hh m. unfold tryCatch. specialize (Hc m).
  destruct (c m) as [[a|e] m1]; simpl in *; [|rewrite Hh]; assumption.
Qed.

Lemma Preserves_forOf {A} (xs : list A) (body : A -> M unit) :
  (forall x, Preserves f (body x)) -> Preserves f (forOf xs body).
Proof.
  intro Hb. induction xs as [|x xs IH]; simpl.
  - apply Preserves_ret.
  - apply Preserves_bind; auto.
Qed.

Lemma Preserves_getService : Preserves f getService.
Proof. intro m. reflexivity. Qed.

Lemma Preserves_repoCall op : Preserves f (repoCall op).
Proof. intro m. reflexivity. Qed.

Lemma Preserves_emit r ev p : Preserves f (emit r ev p).
Proof. intro m. unfold emit. now destruct (io (svc m)). Qed.

Lemma Preserves_dateNow clock : Preserves f (dateNow clock).
Proof. intro m. reflexivity. Qed.

Lemma Preserves_modifyService g :
  (forall s, f (g s) = f s) -> Preserves f (modifyService g).
Proof. intros Hg m. simpl. apply Hg. Qed.

Lemma Emits_ret {A} (a : A) : Emits P (ret a).
Proof. intro m. exists []. simpl. now rewrite app_nil_r. Qed.

Lemma Emits_throw {A} e : Emits P (@throw A e).
Proof. intro m. exists []. simpl. now rewrite app_nil_r. Qed.

Lemma Emits_bind {A B} (c : M A) (k : A -> M B) :
  Emits P c -> (forall a, Emits P (k a)) -> Emits P (bind c k).
Proof.
  intros Hc Hk m. unfold bind. destruct (Hc m) as (l1 & E1 & F1).
  destruct (c m) as [[a|e] m1]; simpl in *.
  - destruct (Hk a m1) as (l2 & E2 & F2).
    exists (l1 ++ l2)%list. rewrite E2, E1, app_assoc. split; [reflexivity|].
    now apply Forall_app.
  - now exists l1.
Qed.

Lemma Emits_tryCatch {A} (c : M A) (h : JsError -> M A) :
  Emits P c -> (forall e, Emits P (h e)) -> Emits P (tryCatch c h).
Proof.
  intros Hc Hh m. unfold tryCatch. destruct (Hc m) as (l1 & E1 & F1).
  destruct (c m) as [[a|e] m1]; simpl in *.
  - now exists l1.
  - destruct (Hh e m1) as (l2 & E2 & F2).
    exists (l1 ++ l2)%list. rewrite E2, E1, app_assoc. split; [reflexivity|].
    now apply Forall_app.
Qed.

Lemma Emits_forOf {A} (xs : list A) (body : A -> M unit) :
  (forall x, In x xs -> Emits P (body x)) -> Emits P (forOf xs body).
Proof.
  induction xs as [|x xs IH]; simpl; intro Hb.
  - apply Emits_ret.
  - apply Emits_bind; [apply Hb; now left|].
    intros _. apply IH. intros y Hy. apply Hb. now right.
Qed.

Lemma Emits_getService : Emits P getService.
Proof. intro m. exists []. simpl. now rewrite app_nil_r. Qed.

Lemma Emits_modifyService g : Emits P (modifyService g).
Proof. intro m. exists []. simpl. now rewrite app_nil_r. Qed.

Lemma Emits_dateNow clock : Emits P (dateNow clock).
Proof. intro m. exists []. simpl. now rewrite app_nil_r. Qed.

Lemma Emits_repoCall op : P (RepoCall op) -> Emits P (repoCall op).
Proof. intros HP m. exists [RepoCall op]. simpl. auto. Qed.

Lemma Emits_emit r ev p :
  (forall d, P (Emit {| room := r; eventName := ev; payload := p |} d)) ->
  Emits P (emit r ev p).
Proof.
  intros HP m. unfold emit. destruct (io (svc m)) as [server|]; simpl.
  - eexists [_]. split; [reflexivity|]. auto.
  - exists []. now rewrite app_nil_r.
Qed.
End Combinators.

Lemma Emits_weaken {A} (P Q : Effect -> Prop) (c : M A) :
  (forall eff, P eff -> Q eff) -> Emits P c -> Emits Q c.
Proof.
  intros HPQ Hc m. destruct (Hc m) as (l & E & F).
  exists l. split; [assumption|]. eapply Forall_impl; eauto.
Qed.

Lemma NoThrow_ret {A} (a : A) : NoThrow (ret a).
Proof. intro m. now exists a. Qed.

Lemma NoThrow_bind {A B} (c : M A) (k : A -> M B) :
  NoThrow c -> (forall a, NoThrow (k a)) -> NoThrow (bind c k).
Proof.
  intros Hc Hk m. unfold bind. destruct (Hc m) as (a & Ha).
  destruct (c m) as [[a'|e] m1]; simpl in *; [apply Hk|discriminate].
Qed.

Lemma NoThrow_tryCatch {A} (c : M A) (h : JsError -> M A) :
  (forall e, NoThrow (h e)) -> NoThrow (tryCatch c h).
Proof.
  intros Hh m. unfold tryCatch.
  destruct (c m) as [[a|e] m1]; simpl; [now exists a|apply Hh].
Qed.

Lemma NoThrow_forOf {A} (xs : list A) (body : A -> M unit) :
  (forall x, NoThrow (body x)) -> NoThrow (forOf xs body).
Proof.
  intro Hb. induction xs as [|x xs IH]; simpl.
  - apply NoThrow_ret.
  - apply NoThrow_bind; auto.
Qed.

Lemma NoThrow_getService : NoThrow getService.
Proof. intro m. now exists (svc m). Qed.

Lemma NoThrow_modifyService g : NoThrow (modifyService g).
Proof. intro m. now exists tt. Qed.

Lemma NoThrow_repoCall op : NoThrow (repoCall op).
Proof. intro m. now exists tt. Qed.

Lemma NoThrow_dateNow clock : NoThrow (dateNow clock).
Proof. intro m. now eexists. Qed.

Create HintDb js discriminated.
#[export] Hint Resolve Preserves_ret Preserves_throw Preserves_tryCatch
  Preserves_forOf Preserves_getService Preserves_repoCall Preserves_emit
  Preserves_dateNow Emits_ret Emits_throw Emits_tryCatch Emits_getService
  Emits_modifyService Emits_dateNow NoThrow_ret NoThrow_tryCatch
  NoThrow_forOf NoThrow_getService NoThrow_modifyService NoThrow_repoCall
  NoThrow_dateNow : js.

(** Splits a goal about a sequence of statements into goals about each. *)
Ltac js_step :=
  first
    [ apply Preserves_bind; [|intro]
    | apply Emits_bind; [|intro]
    | apply NoThrow_bind; [|intro]
    | apply Preserves_tryCatch; [|intro]
    | apply Emits_tryCatch; [|intro]
    | apply NoThrow_tryCatch; intro
    | apply Preserves_forOf; intro
    | apply NoThrow_forOf; intro ].

Ltac js_auto := repeat js_step; auto with js.

(** ** Fan-out *)

Lemma attempted_app tr1 tr2 :
  attempted (tr1 ++ tr2) = (attempted tr1 ++ attempted tr2)%list.
Proof. unfold attempted. apply flat_map_app. Qed.

Lemma attempted_In e tr : In e (attempted tr) <-> exists d, In (Emit e d) tr.
Proof.
  unfold attempted. rewrite in_flat_map. split.
  - intros ([op|e' d] & Hin & He); simpl in He; [easy|].
    destruct He as [->|[]]. eauto.
  - intros (d & Hin). exists (Emit e d). simpl. auto.
Qed.

Lemma emit_bound server r ev p m :
  io (svc m) = Some server ->
  emit r ev p m =
  let e := {| room := r; eventName := ev; payload := p |} in
  ((if server (trace m) e then Returned tt else Threw "emit failed"),
   {| svc := svc m; trace := trace m ++ [Emit e (server (trace m) e)];
      clockReads := clockReads m |}).
Proof. intro H. unfold emit. now rewrite H. Qed.

Lemma sendRankChange_bound server change m :
  io (svc m) = Some server ->
  sendRankChange change m =
  (Returned tt,
   {| svc := svc m;
      trace := trace m ++ [Emit (rankChangedEmission change)
                             (server (trace m) (rankChangedEmission change))];
      clockReads := clockReads m |}).
Proof.
  intro Hio. unfold sendRankChange, tryCatch.
  rewrite (emit_bound server) by assumption. cbv zeta.
  fold (rankChangedEmission change).
  now destruct (server (trace m) (rankChangedEmission change)).
Qed.

Lemma sendRankChange_Preserves {X} (f : Service -> X) change :
  Preserves f (sendRankChange change).
Proof. unfold sendRankChange. js_auto. Qed.

Lemma sendRankChange_NoThrow change : NoThrow (sendRankChange change).
Proof. unfold sendRankChange. js_auto. Qed.

Lemma broadcastPrivateRankChanges_Preserves {X} (f : Service -> X) changes :
  Preserves f (broadcastPrivateRankChanges changes).
Proof.
  unfold broadcastPrivateRankChanges. js_step; [auto with js|].
  destruct (negb (isBound a)); [auto with js|].
  apply Preserves_forOf. intro. apply sendRankChange_Preserves.
Qed.

Lemma broadcastPrivateRankChanges_NoThrow changes :
  NoThrow (broadcastPrivateRankChanges changes).
Proof.
  unfold broadcastPrivateRankChanges. js_step; [auto with js|].
  destruct (negb (isBound a)); [auto with js|].
  apply NoThrow_forOf. intro. apply sendRankChange_NoThrow.
Qed.

Lemma broadcastPrivateRankChanges_Emits changes :
  Emits (fun eff => exists c d, In c changes /\ eff = Emit (rankChangedEmission c) d)
        (broadcastPrivateRankChanges changes).
Proof.
  unfold broadcastPrivateRankChanges. js_step; [auto with js|].
  destruct (negb (isBound a)); [auto with js|].
  apply Emits_forOf. intros c Hc. unfold sendRankChange.
  js_step; [|auto with js].
  apply Emits_emit. intro d. exists c, d. auto.
Qed.

Lemma privateLoop_run server changes : forall m,
  io (svc m) = Some server ->
  exists m',
    forOf changes sendRankChange m = (Returned tt, m')
    /\ svc m' = svc m
    /\ clockReads m' = clockReads m
    /\ exists added,
         trace m' = (trace m ++ added)%list
         /\ attempted added = map rankChangedEmission changes.
Proof.
  induction changes as [|c cs IH]; intros m Hio.
  - exists m. simpl. repeat split; auto. exists []. now rewrite app_nil_r.
  - cbn [forOf]. unfold bind.
    rewrite (sendRankChange_bound server) by assumption.
    set (d := server (trace m) (rankChangedEmission c)).
    set (m1 := {| svc := svc m |}).
    destruct (IH m1 Hio) as (m' & Hrun & Hsvc & Hclk & added & Htr & Hatt).
    exists m'. repeat split; auto.
    exists (Emit (rankChangedEmission c) d :: added). split.
    + rewrite Htr. subst m1. simpl. now rewrite <- app_assoc.
    + simpl. now rewrite Hatt.
Qed.

Section FanOutFacts.
Variable clock : nat -> Z.

Lemma sendAchievement_Emits (P : Effect -> Prop) change achievement :
  (forall ts d,
     P (Emit (achievementEmission (userId change) achievement ts) d)) ->
  Emits P (sendAchievement clock change achievement).
Proof.
  intro HP. unfold sendAchievement. js_step; [auto with js|].
  apply Emits_emit. intro d. apply HP.
Qed.

Lemma sendAchievements_Preserves {X} (f : Service -> X) change :
  Preserves f (sendAchievements clock change).
Proof. unfold sendAchievements, sendAchievement. js_auto. Qed.

Lemma sendAchievements_NoThrow change : NoThrow (sendAchievements clock change).
Proof. unfold sendAchievements. js_auto. Qed.

Lemma sendAchievements_Emits (P : Effect -> Prop) change :
  (forall a ts d,
     In a (detectAchievements change) ->
     P (Emit (achievementEmission (userId change) a ts) d)) ->
  Emits P (sendAchievements clock change).
Proof.
  intro HP. unfold sendAchievements. js_step; [|auto with js].
  apply Emits_forOf. intros a Ha. apply sendAchievement_Emits. auto.
Qed.

Lemma broadcastAchievements_Preserves {X} (f : Service -> X) changes :
  Preserves f (broadcastAchievements clock changes).
Proof.
  unfold broadcastAchievements. js_step; [auto with js|].
  destruct (negb (isBound a)); [auto with js|].
  apply Preserves_forOf. intro. apply sendAchievements_Preserves.
Qed.

Lemma broadcastAchievements_NoThrow changes :
  NoThrow (broadcastAchievements clock changes).
Proof.
  unfold broadcastAchievements. js_step; [auto with js|].
  destruct (negb (isBound a)); [auto with js|].
  apply NoThrow_forOf. intro. apply sendAchievements_NoThrow.
Qed.

Lemma broadcastAchievements_Emits changes :
  Emits (fun eff => exists c a ts d,
           In c changes /\ In a (detectAchievements c)
           /\ eff = Emit (achievementEmission (userId c) a ts) d)
        (broadcastAchievements clock changes).
Proof.
  unfold broadcastAchievements. js_step; [auto with js|].
  destruct (negb (isBound a)); [auto with js|].
  apply Emits_forOf. intros c Hc. apply sendAchievements_Emits.
  intros ach ts d Hach. exists c, ach, ts, d. auto.
Qed.

(** The first achievement of a change is attempted as soon as the change's
    turn comes. *)
Lemma sendAchievements_first server change a rest m :
  io (svc m) = Some server ->
  detectAchievements change = a :: rest ->
  exists d tl,
    trace (snd (sendAchievements clock change m))
    = (trace m
       ++ Emit (achievementEmission (userId change) a (clock (clockReads m))) d
       :: tl)%list.
Proof.
  intros Hio Hdet. unfold sendAchievements. cbv zeta. rewrite Hdet.
  cbn [forOf]. unfold tryCatch, bind at 1.
  unfold sendAchievement at 1, bind at 1. cbn [dateNow].
  rewrite (emit_bound server) by assumption. cbv zeta.
  fold (achievementEmission (userId change) a (clock (clockReads m))).
  set (e := achievementEmission _ _ _). cbn [trace svc clockReads].
  exists (server (trace m) e).
  destruct (server (trace m) e).
  - match goal with |- context [forOf rest ?b ?m1] =>
      assert (Emits (fun _ => True) (forOf rest b)) as HE;
      [|destruct (HE m1) as (l & El & _);
        destruct (forOf rest b m1) as [[[]|err] m2]] end.
    { apply Emits_forOf. intros. now apply sendAchievement_Emits. }
    all: simpl in *; exists l; rewrite El; now rewrite <- app_assoc.
  - exists []. reflexivity.
Qed.

Lemma achievementsLoop_first server changes : forall m c a rest,
  io (svc m) = Some server ->
  In c changes ->
  detectAchievements c = a :: rest ->
  exists added ts,
    trace (snd (forOf changes (sendAchievements clock) m))
    = (trace m ++ added)%list
    /\ In (achievementEmission (userId c) a ts) (attempted added).
Proof.
  induction changes as [|c0 cs IH]; intros m c a rest Hio Hin Hdet; [easy|].
  cbn [forOf]. unfold bind.
  pose proof (sendAchievements_Preserves io c0 m) as HP.
  destruct (sendAchievements_NoThrow c0 m) as ([] & HN).
  destruct Hin as [->|Hin].
  - destruct (sendAchievements_first server c a rest m Hio Hdet)
      as (d & tl & Htl).
    destruct (sendAchievements clock c m) as [[[]|err] m1];
      simpl in *; [|discriminate].
    assert (Emits (fun _ => True) (forOf cs (sendAchievements clock))) as HE.
    { apply Emits_forOf. intros. now apply sendAchievements_Emits. }
    destruct (HE m1) as (l2 & El2 & _).
    eexists _, (clock (clockReads m)). rewrite El2, Htl, <- app_assoc.
    split; [reflexivity|]. simpl. now left.
  - assert (Emits (fun _ => True) (sendAchievements clock c0)) as HE.
    { now apply sendAchievements_Emits. }
    destruct (HE m) as (l1 & El1 & _).
    destruct (sendAchievements clock c0 m) as [[[]|err] m1];
      simpl in *; [|discriminate].
    destruct (IH m1 c a rest) as (added & ts & Htr & Hat); auto; [congruence|].
    exists (l1 ++ added)%list, ts. rewrite Htr, El1, app_assoc.
    split; [reflexivity|]. rewrite attempted_app. apply in_or_app. now right.
Qed.
End FanOutFacts.

(** ** Segments of the cycle *)

Section CycleFacts.
Variable clock : nat -> Z.

(** What resuming at stage [k] leads to: a later stage with the service
    untouched; the end of the [try] block with the snapshot and the time
    stored; or a throw, possible only before the snapshot exists. *)
Lemma continuation_outcome now k r seg m :
  continuation clock now k r = Some seg ->
  match seg m with
  | (Returned (Suspend k'), m') =>
      (stageRank k' < stageRank k)%nat
      /\ (forall snap, carried k = Some snap -> carried k' = Some snap)
      /\ svc m' = svc m
  | (Returned Complete, m') =>
      exists snap,
        carried k = Some snap
        /\ svc m' = set_lastBroadcastTime now (set_previousSnapshots snap (svc m))
  | (Threw _, m') => carried k = None /\ svc m' = svc m
  end.
Proof.
  destruct k, r; cbn [continuation]; intros [= <-].
  - cbn. repeat split; auto; discriminate.
  - cbn. auto.
  - cbn. repeat split; auto; discriminate.
  - cbn. auto.
  - unfold bind at 1. cbn [getService].
    unfold bind at 1.
    set (ch := detectRankChanges _ _).
    destruct (broadcastPrivateRankChanges_NoThrow ch m) as ([] & HN).
    pose proof (broadcastPrivateRankChanges_Preserves (fun s => s) ch m) as HP.
    destruct (broadcastPrivateRankChanges ch m) as [[[]|e] m1];
      simpl in *; [|discriminate].
    repeat split; auto.
  - unfold bind at 1. cbn [getService].
    destruct (negb (isBound (svc m))); cbn; repeat split; auto.
  - cbn. repeat split; auto.
  - cbn. repeat split; auto.
  - unfold publicTry, tryCatch, bind at 1. cbn [dateNow].
    unfold bind at 1.
    match goal with |- context [emit ?a ?b ?c ?m1] =>
      pose proof (Preserves_emit (fun s => s) a b c m1) as HP;
      destruct (emit a b c m1) as [[[]|e] m2] end;
      cbn in *; repeat split; auto.
  - cbn. repeat split; auto.
  - unfold bind at 1.
    destruct (broadcastAchievements_NoThrow clock rankChanges m) as ([] & HN).
    pose proof (broadcastAchievements_Preserves clock (fun s => s) rankChanges m)
      as HP.
    destruct (broadcastAchievements clock rankChanges m) as [[[]|e] m1];
      simpl in *; [|discriminate].
    repeat split; auto.
  - cbn. eauto.
Qed.

(** The answer the script gives always fits the stage. *)
Lemma continuation_respond script now k :
  exists seg, continuation clock now k (respond script k) = Some seg.
Proof.
  destruct k; cbn [respond rowsResponse continuation];
    try (destruct (onUpdateAllRanks script));
    try (destruct (onFindMany script));
    try (destruct (onGetGlobal script));
    try (destruct (onGetWeekly script)); cbn; eauto.
Qed.

Lemma continuation_Emits now k r seg :
  continuation clock now k r = Some seg -> Emits (segmentEffect k r) seg.
Proof.
  destruct k, r; cbn [continuation]; intros [= <-].
  - js_step; [now apply Emits_repoCall|auto with js].
  - auto with js.
  - js_auto.
  - auto with js.
  - js_step; [auto with js|]. js_step; [|auto with js].
    eapply Emits_weaken; [|apply broadcastPrivateRankChanges_Emits].
    intros eff (c & d & _ & ->). left. now exists (userId c).
  - js_step; [auto with js|].
    destruct (negb (isBound a)); [auto with js|].
    unfold publicTry. js_step; [|auto with js].
    js_step; [now apply Emits_repoCall|auto with js].
  - unfold publicTry. js_step; [|auto with js].
    js_step; [now apply Emits_repoCall|auto with js].
  - unfold publicTry. js_auto.
  - unfold publicTry. js_step; [|auto with js].
    js_step; [auto with js|]. js_step; [|auto with js].
    apply Emits_emit. intro d. right.
    exists currentSnapshot, rankChanges, topGlobal, rows, a. auto.
  - unfold publicTry. js_auto.
  - js_step; [|auto with js].
    eapply Emits_weaken; [|apply broadcastAchievements_Emits].
    intros eff (c & a & ts & d & _ & _ & ->). left. now exists (userId c).
  - js_auto.
Qed.

Lemma continuation_consistent script now k seg m k' :
  continuation clock now k (respond script k) = Some seg ->
  consistent script k ->
  fst (seg m) = Returned (Suspend k') ->
  consistent script k'.
Proof.
  intros Hc Hk Hres.
  destruct k'; try exact I.
  (* only resuming from [getGlobal] parks at [getWeekly] *)
  destruct k; cbn [respond rowsResponse continuation] in Hc.
  - destruct (onUpdateAllRanks script); injection Hc as <-; cbn in Hres;
      discriminate.
  - destruct (onFindMany script); injection Hc as <-; cbn in Hres;
      discriminate.
  - injection Hc as <-. revert Hres. unfold bind at 1. cbn [getService].
    unfold bind at 1.
    destruct (broadcastPrivateRankChanges _ m) as [[[]|e] m1]; cbn;
      discriminate.
  - injection Hc as <-. revert Hres. unfold bind at 1. cbn [getService].
    destruct (negb (isBound (svc m))); cbn; discriminate.
  - destruct (onGetGlobal script) as [tg|e] eqn:Hg; injection Hc as <-;
      cbn in Hres; [|discriminate].
    injection Hres as <- <- <-. exact Hg.
  - destruct (onGetWeekly script); injection Hc as <-; revert Hres;
      [|cbn; discriminate].
    unfold publicTry, tryCatch, bind at 1. cbn [dateNow]. unfold bind at 1.
    match goal with |- context [emit ?a ?b ?c ?m1] =>
      destruct (emit a b c m1) as [[[]|e] m2] end; cbn; discriminate.
  - injection Hc as <-. revert Hres. unfold bind at 1.
    destruct (broadcastAchievements _ _ m) as [[[]|e] m1]; cbn; discriminate.
  - injection Hc as <-. cbn in Hres. discriminate.
Qed.

Lemma cycleFinally_run m :
  cycleFinally m =
  (Returned None,
   {| svc := set_isBroadcasting false (svc m); trace := trace m;
      clockReads := clockReads m |}).
Proof. reflexivity. Qed.

(** Resuming never throws.  Either the invocation parks at a later stage
    and the service is as before, or it ends with the flag cleared, having
    stored snapshot and time exactly when the snapshot existed. *)
Lemma resume_outcome t r c m :
  resume clock t r = Some c ->
  exists t' m',
    c m = (Returned t', m')
    /\ match t' with
       | Some t'' =>
           now t'' = now t
           /\ (stageRank (stage t'') < stageRank (stage t))%nat
           /\ (forall snap, carried (stage t) = Some snap ->
                            carried (stage t'') = Some snap)
           /\ svc m' = svc m
       | None =>
           isBroadcasting (svc m') = false
           /\ io (svc m') = io (svc m)
           /\ broadcastTimer (svc m') = broadcastTimer (svc m)
           /\ match carried (stage t) with
              | Some snap =>
                  previousSnapshots (svc m') = snap
                  /\ lastBroadcastTime (svc m') = now t
              | None =>
                  previousSnapshots (svc m') = previousSnapshots (svc m)
                  /\ lastBroadcastTime (svc m') = lastBroadcastTime (svc m)
              end
       end.
Proof.
  unfold resume.
  destruct (continuation clock (now t) (stage t) r) as [seg|] eqn:Hk;
    intros [= <-].
  pose proof (continuation_outcome _ _ _ _ m Hk) as Hout.
  unfold inCycleTry.
  destruct (seg m) as [[[k'|]|e] m1].
  - destruct Hout as (Hlt & Hcar & Hsvc).
    eexists _, _. split; [reflexivity|]. cbn. auto.
  - destruct Hout as (snap & Hcar & Hsvc).
    rewrite cycleFinally_run. eexists _, _. split; [reflexivity|].
    cbn. rewrite Hcar, Hsvc. cbn. auto.
  - destruct Hout as (Hcar & Hsvc).
    rewrite cycleFinally_run. eexists _, _. split; [reflexivity|].
    cbn. rewrite Hcar, Hsvc. cbn. auto.
Qed.

Lemma resume_Emits t r c :
  resume clock t r = Some c -> Emits (segmentEffect (stage t) r) c.
Proof.
  unfold resume.
  destruct (continuation clock (now t) (stage t) r) as [seg|] eqn:Hk;
    intros [= <-].
  intro m. destruct (continuation_Emits _ _ _ _ Hk m) as (l & El & Fl).
  exists l. split; [|assumption].
  unfold inCycleTry. destruct (seg m) as [[[k'|]|e] m1]; exact El.
Qed.

Lemma resume_respond script t :
  exists c, resume clock t (respond script (stage t)) = Some c.
Proof.
  unfold resume.
  destruct (continuation_respond script (now t) (stage t)) as (seg & ->).
  eauto.
Qed.

Lemma segmentEffect_cycleEffect script k eff :
  consistent script k ->
  segmentEffect k (respond script k) eff -> cycleEffect script eff.
Proof.
  destruct eff as [op|e d]; [easy|]. cbn.
  intros Hk [Huser|(snap & ch & tg & tw & ts & -> & Hr & ->)]; [now left|].
  right. exists tg, tw, ts. cbn in Hk, Hr. repeat split; auto.
  destruct (onGetWeekly script); cbn in Hr; congruence.
Qed.

(** *** A whole invocation, run alone *)

Section Drive.
Variable script : SourceScript.

Lemma drive_None fuel m : drive clock fuel script None m = Some m.
Proof. now destruct fuel. Qed.

Lemma drive_S fuel t m :
  drive clock (S fuel) script (Some t) m =
  match resume clock t (respond script (stage t)) with
  | None => None
  | Some c =>
      match c m with
      | (Returned t', m') => drive clock fuel script t' m'
      | (Threw _, _) => None
      end
  end.
Proof. reflexivity. Qed.

Lemma drive_ends : forall fuel t m,
  (stageRank (stage t) <= fuel)%nat ->
  exists m',
    drive clock fuel script (Some t) m = Some m'
    /\ isBroadcasting (svc m') = false
    /\ io (svc m') = io (svc m)
    /\ broadcastTimer (svc m') = broadcastTimer (svc m).
Proof.
  induction fuel as [|fuel IH]; intros t m Hrank.
  - destruct (stage t); cbn in Hrank; lia.
  - cbn [drive]. destruct (resume_respond script t) as (c & Hc).
    rewrite Hc.
    destruct (resume_outcome _ _ _ m Hc) as ([t'|] & m1 & Hrun & Hout);
      rewrite Hrun.
    + destruct Hout as (_ & Hlt & _ & Hsvc).
      destruct (IH t' m1) as (m' & Hd & Hflag & Hio & Htimer); [lia|].
      exists m'. rewrite Hsvc in *. auto.
    + destruct Hout as (Hflag & Hio & Htimer & _).
      exists m1. rewrite drive_None. auto.
Qed.

Lemma drive_carried : forall fuel t m m' snap,
  carried (stage t) = Some snap ->
  drive clock fuel script (Some t) m = Some m' ->
  previousSnapshots (svc m') = snap /\ lastBroadcastTime (svc m') = now t.
Proof.
  induction fuel as [|fuel IH]; intros t m m' snap Hcar; [discriminate|].
  cbn [drive]. destruct (resume_respond script t) as (c & Hc). rewrite Hc.
  destruct (resume_outcome _ _ _ m Hc) as ([t'|] & m1 & Hrun & Hout);
    rewrite Hrun.
  - destruct Hout as (Hnow & _ & Hcar' & _). intro Hd.
    rewrite <- Hnow. eapply IH; eauto.
  - destruct Hout as (_ & _ & _ & Hfin). rewrite Hcar in Hfin.
    rewrite drive_None. intros [= <-]. exact Hfin.
Qed.

Lemma drive_Emits : forall fuel t m m',
  consistent script (stage t) ->
  drive clock fuel script (Some t) m = Some m' ->
  exists added,
    trace m' = (trace m ++ added)%list /\ Forall (cycleEffect script) added.
Proof.
  induction fuel as [|fuel IH]; intros t m m' Hcons; [discriminate|].
  cbn [drive]. destruct (resume_respond script t) as (c & Hc). rewrite Hc.
  destruct (resume_Emits _ _ _ Hc m) as (l1 & E1 & F1).
  assert (Forall (cycleEffect script) l1) as F1'.
  { eapply Forall_impl; [|exact F1].
    intro eff. now apply segmentEffect_cycleEffect. }
  assert (forall t', fst (c m) = Returned (Some t') ->
                     consistent script (stage t')) as Hnext.
  { intros t'. revert Hc. unfold resume.
    destruct (continuation clock (now t) (stage t) (respond script (stage t)))
      as [seg|] eqn:Hk; intros [= <-].
    pose proof (fun k' => continuation_consistent script (now t) (stage t)
                            seg m k' Hk Hcons) as Hcc.
    unfold inCycleTry. destruct (seg m) as [[[k'|]|e] m1]; cbn.
    - intros [= <-]. cbn. now apply Hcc.
    - discriminate.
    - discriminate. }
  destruct (c m) as [[[t'|]|e] m1]; cbn in *.
  - intro Hd. destruct (IH t' m1 m' (Hnext t' eq_refl) Hd) as (l2 & E2 & F2).
    exists (l1 ++ l2)%list. rewrite E2, E1, app_assoc. split; [reflexivity|].
    now apply Forall_app.
  - rewrite drive_None. intros [= <-]. eauto.
  - discriminate.
Qed.
End Drive.

(** *** The entry point *)

Lemma broadcastRankChanges_skip m :
  clock (clockReads m) - lastBroadcastTime (svc m) < MIN_BROADCAST_GAP_MS
  \/ isBroadcasting (svc m) = true ->
  broadcastRankChanges clock m =
  (Returned None,
   {| svc := svc m; trace := trace m; clockReads := S (clockReads m) |}).
Proof.
  intro H. unfold broadcastRankChanges, bind at 1. cbn [dateNow].
  unfold bind at 1. cbn [getService svc].
  destruct (Z.ltb_spec (clock (clockReads m) - lastBroadcastTime (svc m))
              MIN_BROADCAST_GAP_MS) as [Hlt|Hge]; [reflexivity|].
  destruct H as [H|H]; [lia|]. now rewrite H.
Qed.

Lemma broadcastRankChanges_enter m :
  MIN_BROADCAST_GAP_MS <= clock (clockReads m) - lastBroadcastTime (svc m) ->
  isBroadcasting (svc m) = false ->
  broadcastRankChanges clock m =
  (Returned (Some {| now := clock (clockReads m); stage := AwaitUpdateAllRanks |}),
   {| svc := set_isBroadcasting true (svc m);
      trace := trace m ++ [RepoCall UpdateAllRanks];
      clockReads := S (clockReads m) |}).
Proof.
  intros Hgap Hflag. unfold broadcastRankChanges, bind at 1. cbn [dateNow].
  unfold bind at 1. cbn [getService svc].
  destruct (Z.ltb_spec (clock (clockReads m) - lastBroadcastTime (svc m))
              MIN_BROADCAST_GAP_MS) as [Hlt|Hge]; [lia|].
  now rewrite Hflag.
Qed.

(** The entry point decides one way or the other. *)
Lemma broadcastRankChanges_cases m :
  (clock (clockReads m) - lastBroadcastTime (svc m) < MIN_BROADCAST_GAP_MS
   \/ isBroadcasting (svc m) = true)
  \/ (MIN_BROADCAST_GAP_MS <= clock (clockReads m) - lastBroadcastTime (svc m)
      /\ isBroadcasting (svc m) = false).
Proof.
  destruct (Z.lt_ge_cases (clock (clockReads m) - lastBroadcastTime (svc m))
              MIN_BROADCAST_GAP_MS); [auto|].
  destruct (isBroadcasting (svc m)); auto.
Qed.

Section RunCycle.
Variable script : SourceScript.

Lemma runCycle_skip m :
  clock (clockReads m) - lastBroadcastTime (svc m) < MIN_BROADCAST_GAP_MS
  \/ isBroadcasting (svc m) = true ->
  runCycle clock script m =
  Some {| svc := svc m; trace := trace m; clockReads := S (clockReads m) |}.
Proof.
  intro H. unfold runCycle. now rewrite broadcastRankChanges_skip.
Qed.

(** An invocation that got past the gates runs to its end and clears the
    flag, whatever the repository and the transport do. *)
Lemma runCycle_entered m :
  MIN_BROADCAST_GAP_MS <= clock (clockReads m) - lastBroadcastTime (svc m) ->
  isBroadcasting (svc m) = false ->
  exists m',
    runCycle clock script m = Some m'
    /\ isBroadcasting (svc m') = false
    /\ io (svc m') = io (svc m)
    /\ broadcastTimer (svc m') = broadcastTimer (svc m).
Proof.
  intros Hgap Hflag. unfold runCycle.
  rewrite broadcastRankChanges_enter by assumption.
  match goal with |- context [drive clock 8 script (Some ?t) ?m1] =>
    destruct (drive_ends script 8 t m1) as (m' & Hd & Hf & Hio & Ht) end;
    [cbn; lia|].
  exists m'. auto.
Qed.

Lemma runCycle_total m : exists m', runCycle clock script m = Some m'.
Proof.
  destruct (broadcastRankChanges_cases m) as [Hskip|[Hgap Hflag]].
  - rewrite runCycle_skip by assumption. eauto.
  - destruct (runCycle_entered m Hgap Hflag) as (m' & H & _). eauto.
Qed.

(** Clearing the flag again gives back the service the invocation found. *)
Lemma set_isBroadcasting_restore s :
  isBroadcasting s = false ->
  set_isBroadcasting false (set_isBroadcasting true s) = s.
Proof. destruct s. cbn. now intros ->. Qed.

(** A failure of [updateAllRanks] or [findMany] ends the cycle with the
service as it was and nothing sent. *)
Lemma runCycle_aborted m e :
  MIN_BROADCAST_GAP_MS <= clock (clockReads m) - lastBroadcastTime (svc m) ->
  isBroadcasting (svc m) = false ->
  onUpdateAllRanks script = Threw e
  \/ (onUpdateAllRanks script = Returned tt /\ onFindMany script = Threw e) ->
  exists m',
    runCycle clock script m = Some m'
    /\ svc m' = svc m
    /\ attempted (trace m') = attempted (trace m).
Proof.
  intros Hgap Hflag Hfail. unfold runCycle.
  rewrite broadcastRankChanges_enter by assumption.
  destruct Hfail as [Hu|[Hu Hf]].
  - cbn. rewrite Hu. cbn. eexists. split; [reflexivity|]. cbn. split.
    + now apply set_isBroadcasting_restore.
    + rewrite attempted_app. cbn. now rewrite app_nil_r.
  - cbn. rewrite Hu. cbn. rewrite Hf. cbn. eexists. split; [reflexivity|].
    cbn. split.
    + now apply set_isBroadcasting_restore.
    + rewrite !attempted_app. cbn. now rewrite !app_nil_r.
Qed.

(** When [updateAllRanks] and [findMany] answer, the cycle stores the
    new snapshot and its own start time, whatever else fails. *)
Lemma runCycle_success m rows :
  MIN_BROADCAST_GAP_MS <= clock (clockReads m) - lastBroadcastTime (svc m) ->
  isBroadcasting (svc m) = false ->
  onUpdateAllRanks script = Returned tt ->
  onFindMany script = Returned rows ->
  exists m',
    runCycle clock script m = Some m'
    /\ previousSnapshots (svc m')
       = buildSnapshot rows (clock (S (clockReads m)))
    /\ lastBroadcastTime (svc m') = clock (clockReads m)
    /\ isBroadcasting (svc m') = false.
Proof.
  intros Hgap Hflag Hu Hf.
  destruct (runCycle_entered m Hgap Hflag) as (m' & Hrun & Hfl & _).
  exists m'. split; [assumption|].
  revert Hrun. unfold runCycle.
  rewrite broadcastRankChanges_enter by assumption.
  rewrite drive_S. cbn [stage respond]. rewrite Hu. cbn -[drive].
  rewrite drive_S. cbn [stage respond rowsResponse]. rewrite Hf.
  cbn -[drive].
  intro Hd. apply drive_carried with (snap := buildSnapshot rows (clock (S (clockReads m)))) in Hd as [Hs Ht];
    [|reflexivity].
  auto.
Qed.

Lemma runCycle_Emits m m' :
  runCycle clock script m = Some m' ->
  exists added,
    trace m' = (trace m ++ added)%list /\ Forall (cycleEffect script) added.
Proof.
  destruct (broadcastRankChanges_cases m) as [Hskip|[Hgap Hflag]].
  - rewrite runCycle_skip by assumption. intros [= <-].
    exists []. cbn. now rewrite app_nil_r.
  - unfold runCycle. rewrite broadcastRankChanges_enter by assumption.
    intro Hd. apply drive_Emits in Hd as (l & El & Fl); [|exact I].
    exists (RepoCall UpdateAllRanks :: l). cbn in El.
    rewrite El, <- app_assoc. split; [reflexivity|].
    constructor; [exact I|assumption].
Qed.
End RunCycle.
End CycleFacts.

(** ** The trace of a whole cycle *)

Section ShapeFacts.
Variable clock : nat -> Z.



Section Shape.
Variable script : SourceScript.


End Shape.
End ShapeFacts.

(** * The claims *)

(** ** Diff: order, stability, determinism *)

Lemma filter_flat_map {A B} (p : B -> bool) (g : A -> list B) (l : list A) :
  filter p (flat_map g l) = flat_map (fun a => filter p (g a)) l.
Proof.
  induction l as [|a l IH]; [reflexivity|].
  simpl. now rewrite filter_app, IH.
Qed.

Lemma changeFor_ext previous previous' entry :
  (forall uid, Map_get previous' uid = Map_get previous uid) ->
  changeFor previous' entry = changeFor previous entry.
Proof. intro H. destruct entry as [uid c]. unfold changeFor. now rewrite H. Qed.

(** C2: the sequence returned by the diff is sorted by descending
    |rankChange|; the events of any one magnitude appear in the order in
    which the loop over the current snapshot's entries produced them; and the
    result depends on the previous snapshot only through its lookups, so equal
    inputs iterated in equal order give equal output. *)
Theorem detectRankChanges_sorted_stable (previous current : JsMap RankSnapshot) :
  StronglySorted (descendingBy magnitude) (detectRankChanges previous current)
  /\ (forall k,
        filter (fun e => magnitude e =? k) (detectRankChanges previous current)
        = flat_map (fun entry =>
                      filter (fun e => magnitude e =? k) (changeFor previous entry))
                   (Map_entries current))
  /\ (forall previous',
        (forall uid, Map_get previous' uid = Map_get previous uid) ->
        detectRankChanges previous' current = detectRankChanges previous current).
Proof.
  unfold detectRankChanges. split; [|split].
  - apply Array_sort_sorted. apply byMagnitude_key.
  - intro k.
    rewrite (Array_sort_stable byMagnitude magnitude byMagnitude_key).
    apply filter_flat_map.
  - intros previous' Hsame. f_equal. unfold collectChanges.
    apply flat_map_ext. intro entry. now apply changeFor_ext.
Qed.

Lemma detectRankChanges_sorted_stable_witness :
  (forall uid, Map_get snapshotBeforeReversed uid = Map_get snapshotBefore uid)
  /\ detectRankChanges snapshotBeforeReversed snapshotAfter
     = detectRankChanges snapshotBefore snapshotAfter.
Proof.
  assert (forall uid,
            Map_get snapshotBeforeReversed uid = Map_get snapshotBefore uid) as H.
  { intro uid. cbn.
    destruct (String.eqb_spec uid "U1") as [->|?]; [reflexivity|].
    destruct (String.eqb_spec uid "U2") as [->|?]; [reflexivity|].
    destruct (String.eqb_spec uid "U3") as [->|?]; [reflexivity|].
    destruct (String.eqb_spec uid "U4") as [->|?]; [reflexivity|].
    destruct (String.eqb_spec uid "U5") as [->|?]; reflexivity. }
  split; [exact H|].
  exact (proj2 (proj2 (detectRankChanges_sorted_stable snapshotBefore snapshotAfter))
           snapshotBeforeReversed H).
Defined.

(** On the sample snapshots: U2 moved by 60; U1 and U5 both moved by 4 and
    keep the order of the current snapshot; U4 changed only its weekly rank. *)
Example detectRankChanges_sample :
  map (fun e => (userId e, rankChange e))
      (detectRankChanges snapshotBefore snapshotAfter)
  = [("U2", 60); ("U1", 4); ("U5", -4); ("U4", 0)].
Proof. reflexivity. Qed.

(** ** Diff: unchanged and new users *)

(** A user present in both snapshots with the same ranks has no event. *)
Lemma unchanged_user_no_event (previous current : JsMap RankSnapshot) uid p c :
  MapWf current ->
  Map_get previous uid = Some p ->
  Map_get current uid = Some c ->
  globalRank p = globalRank c ->
  weeklyRank p = weeklyRank c ->
  forall e, In e (detectRankChanges previous current) -> userId e <> uid.
Proof.
  intros Hwf Hp Hc Hg Hw e He Heq.
  apply detectRankChanges_inv in He as (c' & p' & Hin & Hp' & Hdiff & _).
  rewrite Heq in *. apply (Map_get_In _ _ _ Hwf) in Hin.
  assert (c' = c) by congruence. assert (p' = p) by congruence. subst.
  destruct Hdiff; congruence.
Qed.

(** C7: diffing a snapshot against itself yields the empty sequence, and a
    user present in both snapshots with the same global and weekly rank
    produces no event. *)
Theorem detectRankChanges_unchanged (snapshot : JsMap RankSnapshot)
    (Hwf : MapWf snapshot) :
  detectRankChanges snapshot snapshot = []
  /\ (forall previous uid p c,
        Map_get previous uid = Some p ->
        Map_get snapshot uid = Some c ->
        globalRank p = globalRank c ->
        weeklyRank p = weeklyRank c ->
        forall e, In e (detectRankChanges previous snapshot) -> userId e <> uid).
Proof.
  split.
  - destruct (detectRankChanges snapshot snapshot) as [|e l] eqn:Hd;
      [reflexivity|].
    exfalso.
    assert (In e (detectRankChanges snapshot snapshot)) as He
      by (rewrite Hd; now left).
    pose proof He as He'.
    apply detectRankChanges_inv in He' as (c & p & Hin & Hp & _).
    apply (Map_get_In _ _ _ Hwf) in Hin.
    assert (c = p) by congruence. subst.
    now apply (unchanged_user_no_event snapshot snapshot (userId e) p p
                 Hwf Hp Hp eq_refl eq_refl e He).
  - intros previous uid p c. now apply unchanged_user_no_event.
Qed.

Lemma detectRankChanges_unchanged_witness :
  MapWf snapshotAfter
  /\ detectRankChanges snapshotAfter snapshotAfter = []
  /\ forall e, In e (detectRankChanges snapshotBefore snapshotAfter) ->
               userId e <> "U3".
Proof.
  pose proof (buildSnapshot_wf rowsAfter 2000) as Hwf.
  destruct (detectRankChanges_unchanged snapshotAfter Hwf) as [Hsame Hkeep].
  split; [exact Hwf|]. split; [exact Hsame|].
  exact (Hkeep snapshotBefore "U3"
           (mkRankSnapshot "U3" 3 3 5000 70 1000)
           (mkRankSnapshot "U3" 3 3 5000 70 2000)
           eq_refl eq_refl eq_refl eq_refl).
Defined.

(** ** Who is addressed by the private fan-out *)

Lemma userRoom_inj a b : userRoom a = userRoom b -> a = b.
Proof. unfold userRoom. cbn. now intros [= ->]. Qed.


(** A user without an event in the batch is sent nothing by either private
    fan-out. *)
Lemma fanout_silent clock uid changes m :
  (forall e, In e changes -> userId e <> uid) ->
  (exists added,
     trace (snd (broadcastPrivateRankChanges changes m)) = (trace m ++ added)%list
     /\ forall e d, In (Emit e d) added -> room e <> userRoom uid)
  /\ (exists added,
        trace (snd (broadcastAchievements clock changes m))
        = (trace m ++ added)%list
        /\ forall e d, In (Emit e d) added -> room e <> userRoom uid).
Proof.
  intro Hno. split.
  - destruct (broadcastPrivateRankChanges_Emits changes m) as (l & El & Fl).
    exists l. split; [assumption|]. intros e d Hin.
    rewrite Forall_forall in Fl.
    destruct (Fl _ Hin) as (c & d' & Hc & [= -> ->]). cbn.
    intro Heq. apply userRoom_inj in Heq. now apply (Hno c).
  - destruct (broadcastAchievements_Emits clock changes m) as (l & El & Fl).
    exists l. split; [assumption|]. intros e d Hin.
    rewrite Forall_forall in Fl.
    destruct (Fl _ Hin) as (c & a & ts & d' & Hc & _ & [= -> ->]). cbn.
    intro Heq. apply userRoom_inj in Heq. now apply (Hno c).
Qed.

(** C8: a user present in the current snapshot but absent from the previous
    one gets no event from the diff, and so neither a rank-change message nor
    an achievement when that batch is fanned out. *)
Theorem detectRankChanges_new_user (previous current : JsMap RankSnapshot)
    (uid : string) (Hnew : Map_get previous uid = None) :
  (forall e, In e (detectRankChanges previous current) -> userId e <> uid)
  /\ (forall clock m,
        let changes := detectRankChanges previous current in
        (exists added,
           trace (snd (broadcastPrivateRankChanges changes m))
           = (trace m ++ added)%list
           /\ forall e d, In (Emit e d) added -> room e <> userRoom uid)
        /\ (exists added,
              trace (snd (broadcastAchievements clock changes m))
              = (trace m ++ added)%list
              /\ forall e d, In (Emit e d) added -> room e <> userRoom uid)).
Proof.
  assert (forall e, In e (detectRankChanges previous current) -> userId e <> uid)
    as Hno.
  { intros e He Heq.
    apply detectRankChanges_inv in He as (c & p & _ & Hp & _).
    congruence. }
  split; [exact Hno|]. intros clock m changes. now apply fanout_silent.
Qed.

Lemma detectRankChanges_new_user_witness :
  Map_get snapshotBefore "U6" = None
  /\ In "U6" (Map_keys snapshotAfter)
  /\ forall e, In e (detectRankChanges snapshotBefore snapshotAfter) ->
               userId e <> "U6".
Proof.
  split; [reflexivity|]. split; [cbn; tauto|].
  exact (proj1 (detectRankChanges_new_user snapshotBefore snapshotAfter "U6"
                  eq_refl)).
Defined.

(** ** Zero-delta events *)

(** C10: a user whose weekly rank changed while the global rank did not gets
    a [rank_changed] event with [rankChange = 0]; its private payload carries
    [improved = false]; and with the transport bound that payload is sent to
    the user's room. *)
Theorem detectRankChanges_weekly_only (previous current : JsMap RankSnapshot)
    (uid : string) (p c : RankSnapshot)
    (Hprev : Map_get previous uid = Some p)
    (Hcur : Map_get current uid = Some c)
    (Hglobal : globalRank p = globalRank c)
    (Hweekly : weeklyRank p <> weeklyRank c) :
  exists e,
    In e (detectRankChanges previous current)
    /\ userId e = uid
    /\ rankChange e = 0
    /\ getField "type" (rankChangedPayload e) = Some (JStr "rank_changed")
    /\ getField "rankChange" (rankChangedPayload e) = Some (JNum 0)
    /\ getField "improved" (rankChangedPayload e) = Some (JBool false)
    /\ forall server m,
         io (svc m) = Some server ->
         exists m' added,
           broadcastPrivateRankChanges (detectRankChanges previous current) m
           = (Returned tt, m')
           /\ trace m' = (trace m ++ added)%list
           /\ In {| room := userRoom uid; eventName := "rank_changed";
                    payload := rankChangedPayload e |} (attempted added).
Proof.
  set (e := {| userId := uid;
               previousGlobalRank := globalRank p;
               currentGlobalRank := globalRank c;
               previousWeeklyRank := weeklyRank p;
               currentWeeklyRank := weeklyRank c;
               rankChange := globalRank p - globalRank c;
               timestamp := rs_timestamp c |}).
  assert (In e (detectRankChanges previous current)) as He.
  { apply detectRankChanges_In, collectChanges_In.
    exists uid, c. split; [now apply Map_get_Some_In|].
    unfold changeFor. rewrite Hprev.
    destruct (Z.eqb_spec (weeklyRank c) (weeklyRank p)) as [Heq|_];
      [congruence|].
    rewrite orb_true_r. now left. }
  assert (rankChange e = 0) as Hzero by (cbn; lia).
  exists e. split; [exact He|]. split; [reflexivity|]. split; [exact Hzero|].
  split; [reflexivity|].
  split; [cbn [getField rankChangedPayload lookupField String.eqb Ascii.eqb
               Bool.eqb]; now rewrite Hzero|].
  split; [cbn [getField rankChangedPayload lookupField String.eqb Ascii.eqb
               Bool.eqb]; now rewrite Hzero|].
  intros server m Hio.
  unfold broadcastPrivateRankChanges, bind. cbn [getService].
  unfold isBound. rewrite Hio. cbn [negb].
  destruct (privateLoop_run server (detectRankChanges previous current) m Hio)
    as (m' & Hrun & _ & _ & added & Htr & Hatt).
  exists m', added. split; [exact Hrun|]. split; [exact Htr|].
  rewrite Hatt. change (In (rankChangedEmission e)
                          (map rankChangedEmission
                             (detectRankChanges previous current))).
  now apply in_map.
Qed.

Lemma detectRankChanges_weekly_only_witness :
  exists e,
    In e (detectRankChanges snapshotBefore snapshotAfter)
    /\ userId e = "U4"
    /\ rankChange e = 0
    /\ getField "improved" (rankChangedPayload e) = Some (JBool false).
Proof.
  destruct (detectRankChanges_weekly_only snapshotBefore snapshotAfter "U4"
              (mkRankSnapshot "U4" 7 2 2500 90 1000)
              (mkRankSnapshot "U4" 7 1 2500 99 2000)
              eq_refl eq_refl eq_refl)
    as (e & He & Hu & Hz & _ & _ & Hi & _).
  - cbn. discriminate.
  - exists e. auto.
Defined.

(** ** Achievements *)

Lemma detectAchievements_types change :
  map a_type (detectAchievements change) =
  ((if (currentGlobalRank change <=? 10) && (previousGlobalRank change >? 10)
    then ["top_10_global"] else [])
   ++ (if (currentGlobalRank change <=? 100) && (previousGlobalRank change >? 100)
       then ["top_100_global"] else [])
   ++ (if rankChange change >=? 50 then ["big_climb"] else [])
   ++ (if (currentWeeklyRank change =? 1) && negb (previousWeeklyRank change =? 1)
       then ["weekly_leader"] else []))%list.
Proof.
  unfold detectAchievements. rewrite !map_app.
  repeat match goal with |- context [if ?b then _ else _] => destruct b end;
    reflexivity.
Qed.

Ltac kinds_iff :=
  split;
  [ let Hin := fresh in
    intros Hin; cbn in Hin; intuition (try discriminate; try lia)
  | let Hc := fresh in
    intros Hc; first [ solve [cbn; auto 8] | exfalso; lia ] ].

(** C3: the detector returns exactly the notifications whose conditions hold,
    each at most once and no other kind; an event from rank 12 to rank 8
    yields [top_10_global]; and a user whose ranks are the same in two
    consecutive snapshots is sent no achievement. *)
Theorem detectAchievements_exact :
  (forall change,
     let kinds := map a_type (detectAchievements change) in
     (In "top_10_global" kinds <->
        currentGlobalRank change <= 10 /\ previousGlobalRank change > 10)
     /\ (In "top_100_global" kinds <->
           currentGlobalRank change <= 100 /\ previousGlobalRank change > 100)
     /\ (In "big_climb" kinds <-> rankChange change >= 50)
     /\ (In "weekly_leader" kinds <->
           currentWeeklyRank change = 1 /\ previousWeeklyRank change <> 1)
     /\ incl kinds ["top_10_global"; "top_100_global"; "big_climb"; "weekly_leader"]
     /\ NoDup kinds)
  /\ (forall change,
        previousGlobalRank change = 12 -> currentGlobalRank change = 8 ->
        In "top_10_global" (map a_type (detectAchievements change)))
  /\ (forall clock previous current uid p c m,
        MapWf current ->
        Map_get previous uid = Some p ->
        Map_get current uid = Some c ->
        globalRank p = globalRank c ->
        weeklyRank p = weeklyRank c ->
        exists added,
          trace (snd (broadcastAchievements clock
                        (detectRankChanges previous current) m))
          = (trace m ++ added)%list
          /\ forall e d, In (Emit e d) added -> room e <> userRoom uid).
Proof.
  assert (forall change,
     let kinds := map a_type (detectAchievements change) in
     (In "top_10_global" kinds <->
        currentGlobalRank change <= 10 /\ previousGlobalRank change > 10)
     /\ (In "top_100_global" kinds <->
           currentGlobalRank change <= 100 /\ previousGlobalRank change > 100)
     /\ (In "big_climb" kinds <-> rankChange change >= 50)
     /\ (In "weekly_leader" kinds <->
           currentWeeklyRank change = 1 /\ previousWeeklyRank change <> 1)
     /\ incl kinds ["top_10_global"; "top_100_global"; "big_climb"; "weekly_leader"]
     /\ NoDup kinds) as Hrules.
  { intros change kinds. subst kinds. rewrite detectAchievements_types.
    destruct (Z.leb_spec (currentGlobalRank change) 10);
    destruct (Z.gtb_spec (previousGlobalRank change) 10);
    destruct (Z.leb_spec (currentGlobalRank change) 100);
    destruct (Z.gtb_spec (previousGlobalRank change) 100);
    destruct (Z.geb_spec (rankChange change) 50);
    destruct (Z.eqb_spec (currentWeeklyRank change) 1);
    destruct (Z.eqb_spec (previousWeeklyRank change) 1);
    cbn [andb negb app];
    (split; [kinds_iff|]); (split; [kinds_iff|]); (split; [kinds_iff|]);
    (split; [kinds_iff|]);
    (split;
     [ intros k Hin; cbn in Hin |- *; intuition auto 8
     | repeat constructor; cbn; intuition discriminate ]). }
  split; [exact Hrules|]. split.
  - intros change Hp Hc. apply (proj1 (Hrules change)). lia.
  - intros clock previous current uid p c m Hwf Hp Hc Hg Hw.
    apply (fanout_silent clock uid).
    exact (unchanged_user_no_event previous current uid p c Hwf Hp Hc Hg Hw).
Qed.

Lemma detectAchievements_exact_witness :
  In "top_10_global"
     (map a_type (detectAchievements (mkRankChangeEvent "U1" 12 8 4 4 4 2000)))
  /\ exists added,
       trace (snd (broadcastAchievements sampleClock
                     (detectRankChanges snapshotBefore snapshotAfter)
                     (warmMachine (Some deliverAll))))
       = (trace (warmMachine (Some deliverAll)) ++ added)%list
       /\ forall e d, In (Emit e d) added -> room e <> userRoom "U3".
Proof.
  destruct detectAchievements_exact as (_ & Hcross & Hquiet). split.
  - apply Hcross; reflexivity.
  - apply (Hquiet sampleClock snapshotBefore snapshotAfter "U3"
             (mkRankSnapshot "U3" 3 3 5000 70 1000)
             (mkRankSnapshot "U3" 3 3 5000 70 2000));
      try reflexivity.
    apply buildSnapshot_wf.
Defined.

(** A climb from 200 to 140 is a big climb but not a top-100 entry; taking
    the weekly lead from rank 3 is a weekly-leader achievement. *)
Example detectAchievements_samples :
  map a_type (detectAchievements (mkRankChangeEvent "U2" 200 140 9 9 60 2000))
  = ["big_climb"]
  /\ map a_type (detectAchievements (mkRankChangeEvent "U3" 5 5 3 1 0 2000))
     = ["weekly_leader"]
  /\ map a_type (detectAchievements (mkRankChangeEvent "U7" 150 9 2 1 141 2000))
     = ["top_10_global"; "top_100_global"; "big_climb"; "weekly_leader"].
Proof. repeat split. Qed.

(** ** Failure isolation in the private fan-out *)

(** C9: with the transport bound, [broadcastPrivateRankChanges] attempts one
    emission per event of the batch, in order, whichever of them throw, and
    returns normally; [broadcastAchievements] returns normally and attempts
    the first achievement of every event that has one, whatever failed for
    the events before it; and a cycle whose repository calls answer stores
    the new snapshot and its start time whatever the transport does. *)
Theorem fanout_isolated :
  (forall server changes m,
     io (svc m) = Some server ->
     exists m' added,
       broadcastPrivateRankChanges changes m = (Returned tt, m')
       /\ trace m' = (trace m ++ added)%list
       /\ attempted added = map rankChangedEmission changes)
  /\ (forall clock server changes m,
        io (svc m) = Some server ->
        exists m' added,
          broadcastAchievements clock changes m = (Returned tt, m')
          /\ trace m' = (trace m ++ added)%list
          /\ forall c a rest,
               In c changes -> detectAchievements c = a :: rest ->
               exists ts,
                 In (achievementEmission (userId c) a ts) (attempted added))
  /\ (forall clock script m rows,
        MIN_BROADCAST_GAP_MS <= clock (clockReads m) - lastBroadcastTime (svc m) ->
        isBroadcasting (svc m) = false ->
        onUpdateAllRanks script = Returned tt ->
        onFindMany script = Returned rows ->
        exists m',
          runCycle clock script m = Some m'
          /\ previousSnapshots (svc m')
             = buildSnapshot rows (clock (S (clockReads m)))
          /\ lastBroadcastTime (svc m') = clock (clockReads m)).
Proof.
  split; [|split].
  - intros server changes m Hio.
    unfold broadcastPrivateRankChanges, bind. cbn [getService].
    unfold isBound. rewrite Hio. cbn [negb].
    destruct (privateLoop_run server changes m Hio)
      as (m' & Hrun & _ & _ & added & Htr & Hatt).
    exists m', added. auto.
  - intros clock server changes m Hio.
    destruct (broadcastAchievements_NoThrow clock changes m) as ([] & HN).
    destruct (broadcastAchievements_Emits clock changes m) as (added & El & _).
    assert (broadcastAchievements clock changes m
            = forOf changes (sendAchievements clock) m) as Hloop.
    { unfold broadcastAchievements, bind. cbn [getService].
      unfold isBound. now rewrite Hio. }
    destruct (broadcastAchievements clock changes m) as [[[]|err] m'] eqn:Hrun;
      cbn in HN, El; [|discriminate].
    exists m', added. split; [reflexivity|]. split; [exact El|].
    intros c a rest Hc Hdet.
    destruct (achievementsLoop_first clock server changes m c a rest Hio Hc Hdet)
      as (added' & ts & Htr & Hat).
    rewrite <- Hloop in Htr. cbn in Htr. rewrite El in Htr.
    apply app_inv_head in Htr. subst added'. eauto.
  - intros clock script m rows Hgap Hflag Hu Hf.
    destruct (runCycle_success clock script m rows Hgap Hflag Hu Hf)
      as (m' & Hrun & Hs & Ht & _).
    eauto.
Qed.

Lemma fanout_isolated_witness :
  io (svc (warmMachine (Some (failingFor "U2")))) = Some (failingFor "U2")
  /\ exists m' added,
       broadcastPrivateRankChanges
         (detectRankChanges snapshotBefore snapshotAfter)
         (warmMachine (Some (failingFor "U2"))) = (Returned tt, m')
       /\ trace m' = (trace (warmMachine (Some (failingFor "U2"))) ++ added)%list
       /\ map room (attempted added) = ["user:U2"; "user:U1"; "user:U5"; "user:U4"].
Proof.
  split; [reflexivity|].
  destruct (proj1 fanout_isolated (failingFor "U2")
              (detectRankChanges snapshotBefore snapshotAfter)
              (warmMachine (Some (failingFor "U2"))) eq_refl)
    as (m' & added & Hrun & Htr & Hatt).
  exists m', added. split; [exact Hrun|]. split; [exact Htr|].
  rewrite Hatt. reflexivity.
Defined.

(** On the sample batch the emit to U2, first in line, throws; the three
    users after it are still served, and so are their achievements. *)
Example fanout_after_failure :
  (let m' := snd (broadcastPrivateRankChanges
                    (detectRankChanges snapshotBefore snapshotAfter)
                    (warmMachine (Some (failingFor "U2")))) in
   map (fun eff => match eff with
                   | Emit e d => (room e, d)
                   | RepoCall _ => ("", false)
                   end) (trace m')
   = [("user:U2", false); ("user:U1", true); ("user:U5", true); ("user:U4", true)])
  /\ (let m' := snd (broadcastAchievements sampleClock
                       (detectRankChanges snapshotBefore snapshotAfter)
                       (warmMachine (Some (failingFor "U2")))) in
      map (fun eff => match eff with
                      | Emit e d => (room e, getField "achievementType" (payload e), d)
                      | RepoCall _ => ("", None, false)
                      end) (trace m')
      = [("user:U2", Some (JStr "big_climb"), false);
         ("user:U1", Some (JStr "top_10_global"), true);
         ("user:U4", Some (JStr "weekly_leader"), true)]).
Proof. split; reflexivity. Qed.

(** ** The public update *)







(** ** The minimum-gap gate *)

(** C4 (as the code has it): an invocation that finds the last successful
    cycle's start less than [MIN_BROADCAST_GAP_MS] ago performs no cycle step
    and leaves the service as it was; therefore two invocations within one
    minimum gap complete at most one cycle: either the second performs no
    cycle step, or the first left the service as it found it and sent
    nothing (it was skipped, or its cycle aborted on a source failure). *)
Theorem min_gap_gate (clock : nat -> Z) :
  (forall script m,
     clock (clockReads m) - lastBroadcastTime (svc m) < MIN_BROADCAST_GAP_MS ->
     exists m',
       broadcastRankChanges clock m = (Returned None, m')
       /\ runCycle clock script m = Some m'
       /\ svc m' = svc m
       /\ trace m' = trace m)
  /\ (forall script1 script2 m,
        exists m1,
          runCycle clock script1 m = Some m1
          /\ (clock (clockReads m1) - clock (clockReads m) < MIN_BROADCAST_GAP_MS ->
              exists m2,
                runCycle clock script2 m1 = Some m2
                /\ ((svc m2 = svc m1 /\ trace m2 = trace m1)
                    \/ (svc m1 = svc m
                        /\ attempted (trace m1) = attempted (trace m))))).
Proof.
  split.
  - intros script m Hsoon. eexists. split; [|split].
    + apply broadcastRankChanges_skip. now left.
    + apply runCycle_skip. now left.
    + split; reflexivity.
  - intros script1 script2 m.
    destruct (broadcastRankChanges_cases clock m) as [Hskip|[Hgap Hflag]].
    { (* the first invocation is skipped *)
      eexists. split; [now apply runCycle_skip|]. intros _.
      destruct (runCycle_total clock script2
                  {| svc := svc m; trace := trace m;
                     clockReads := S (clockReads m) |}) as (m2 & Hrun2).
      exists m2. split; [exact Hrun2|]. right. split; reflexivity. }
    destruct (onUpdateAllRanks script1) as [[]|e] eqn:Hu;
      [destruct (onFindMany script1) as [rows|e] eqn:Hf|].
    + (* the first cycle completes: the gate is armed *)
      destruct (runCycle_success clock script1 m rows Hgap Hflag Hu Hf)
        as (m1 & Hrun & _ & Hlast & _).
      exists m1. split; [exact Hrun|]. intro Hsoon.
      exists {| svc := svc m1; trace := trace m1;
                clockReads := S (clockReads m1) |}.
      split; [|left; split; reflexivity].
      apply runCycle_skip. left. now rewrite Hlast.
    + (* [findMany] throws *)
      destruct (runCycle_aborted clock script1 m e Hgap Hflag)
        as (m1 & Hrun & Hsvc & Hatt); [now right|].
      exists m1. split; [exact Hrun|]. intros _.
      destruct (runCycle_total clock script2 m1) as (m2 & Hrun2).
      exists m2. split; [exact Hrun2|]. now right.
    + (* [updateAllRanks] throws *)
      destruct (runCycle_aborted clock script1 m e Hgap Hflag)
        as (m1 & Hrun & Hsvc & Hatt); [now left|].
      exists m1. split; [exact Hrun|]. intros _.
      destruct (runCycle_total clock script2 m1) as (m2 & Hrun2).
      exists m2. split; [exact Hrun2|]. now right.
Qed.

Lemma min_gap_gate_witness :
  exists m1 m2,
    runCycle sampleClock (allAnswer rowsAfter) (warmMachine (Some deliverAll))
    = Some m1
    /\ sampleClock (clockReads m1) - sampleClock 0 < MIN_BROADCAST_GAP_MS
    /\ runCycle sampleClock (allAnswer rowsBefore) m1 = Some m2
    /\ svc m2 = svc m1 /\ trace m2 = trace m1.
Proof.
  destruct (proj2 (min_gap_gate sampleClock) (allAnswer rowsAfter)
              (allAnswer rowsBefore) (warmMachine (Some deliverAll)))
    as (m1 & Hrun1 & Hsecond).
  assert (exists x,
            runCycle sampleClock (allAnswer rowsAfter)
              (warmMachine (Some deliverAll)) = Some x
            /\ sampleClock (clockReads x) - sampleClock 0 < MIN_BROADCAST_GAP_MS
            /\ lastBroadcastTime (svc x) = sampleClock 0)
    as (x & Hx & Hsoon & Hlast).
  { eexists. split; [vm_compute; reflexivity|]. split; vm_compute; reflexivity. }
  rewrite Hx in Hrun1. injection Hrun1 as <-.
  destruct (Hsecond Hsoon) as (m2 & Hrun2 & Hcase).
  exists x, m2. split; [exact Hx|]. split; [exact Hsoon|].
  split; [exact Hrun2|].
  destruct Hcase as [Hnoop|[Hsame _]]; [exact Hnoop|].
  exfalso. apply (f_equal lastBroadcastTime) in Hsame.
  rewrite Hlast in Hsame. vm_compute in Hsame. discriminate.
Defined.

(** C4 as worded fails: when the first of two invocations aborts because the
    repository throws, the second, one millisecond later, starts a cycle as
    well. *)
Lemma second_invocation_after_abort_runs :
  exists m1 m2,
    runCycle sampleClock recomputeFails (freshMachine None) = Some m1
    /\ runCycle sampleClock (allAnswer rowsAfter) m1 = Some m2
    /\ sampleClock (clockReads m1) - sampleClock (clockReads (freshMachine None))
       < MIN_BROADCAST_GAP_MS
    /\ cyclesStarted (trace (freshMachine None)) = 0%nat
    /\ cyclesStarted (trace m1) = 1%nat
    /\ cyclesStarted (trace m2) = 2%nat.
Proof.
  eexists _, _.
  split; [vm_compute; reflexivity|].
  split; [vm_compute; reflexivity|].
  repeat split.
Qed.

(** ** Source failures *)




(** ** Single flight *)

Section SingleFlightFacts.
Variable clock : nat -> Z.

(** A call that parks an invocation only when the flag was clear, setting
    it, and otherwise leaves the flag alone, keeps the invariant. *)
Lemma launch_SingleFlight (c : M (option Task)) sys sys' :
  (forall m, exists t m',
      c m = (Returned t, m')
      /\ match t with
         | None => isBroadcasting (svc m') = isBroadcasting (svc m)
         | Some _ =>
             isBroadcasting (svc m) = false /\ isBroadcasting (svc m') = true
         end) ->
  SingleFlight sys ->
  launch c sys = Some sys' ->
  SingleFlight sys'.
Proof.
  intros Hc Hinv. unfold launch.
  destruct (Hc (machine sys)) as (t & m' & -> & Ht).
  intros [= <-]. unfold SingleFlight in *. cbn [parked machine].
  destruct t as [t|]; cbn [addTask].
  - destruct Ht as [Hoff Hon].
    destruct (parked sys) as [|t0 [|t1 l]]; cbn; [assumption|congruence|easy].
  - rewrite Ht. exact Hinv.
Qed.

Lemma broadcastRankChanges_flag m :
  exists t m',
    broadcastRankChanges clock m = (Returned t, m')
    /\ match t with
       | None => isBroadcasting (svc m') = isBroadcasting (svc m)
       | Some _ =>
           isBroadcasting (svc m) = false /\ isBroadcasting (svc m') = true
       end.
Proof.
  destruct (broadcastRankChanges_cases clock m) as [Hskip|[Hgap Hflag]].
  - rewrite broadcastRankChanges_skip by assumption. eexists _, _.
    split; [reflexivity|]. reflexivity.
  - rewrite broadcastRankChanges_enter by assumption. eexists _, _.
    split; [reflexivity|]. cbn. auto.
Qed.

Lemma start_flag m :
  exists t m',
    start clock m = (Returned t, m')
    /\ match t with
       | None => isBroadcasting (svc m') = isBroadcasting (svc m)
       | Some _ =>
           isBroadcasting (svc m) = false /\ isBroadcasting (svc m') = true
       end.
Proof.
  unfold start, bind at 1. cbn [getService].
  destruct (broadcastTimer (svc m)).
  - eexists _, _. split; [reflexivity|]. reflexivity.
  - unfold bind at 1.
    destruct (broadcastRankChanges_flag m) as (t & m1 & -> & Ht).
    eexists _, _. split; [reflexivity|]. destruct t; exact Ht.
Qed.

Lemma step_SingleFlight a sys sys' :
  SingleFlight sys -> step clock a sys = Some sys' -> SingleFlight sys'.
Proof.
  intro Hinv. destruct a as [|server| | | |i r]; cbn [step].
  - apply launch_SingleFlight; [apply broadcastRankChanges_flag|assumption].
  - apply launch_SingleFlight; [|assumption].
    intro m. eexists _, _. split; reflexivity.
  - apply launch_SingleFlight; [apply start_flag|assumption].
  - apply launch_SingleFlight; [|assumption].
    intro m. unfold stop, bind. cbn [getService].
    destruct (broadcastTimer (svc m)); eexists _, _; split; reflexivity.
  - destruct (broadcastTimer (svc (machine sys))); [|discriminate].
    apply launch_SingleFlight; [apply broadcastRankChanges_flag|assumption].
  - destruct (nth_error (parked sys) i) as [t|] eqn:Hnth; [|discriminate].
    destruct (resume clock t r) as [c|] eqn:Hres; [|discriminate].
    unfold SingleFlight in Hinv.
    destruct (parked sys) as [|t0 [|t1 l]] eqn:Hparked;
      [destruct i; discriminate| |easy].
    assert (removeNth i [t0] = [] /\ t = t0) as [Hrm ->].
    { destruct i as [|[|i]]; cbn in Hnth |- *; [|discriminate..].
      injection Hnth as <-. auto. }
    rewrite Hrm. unfold launch. cbn [machine parked].
    destruct (resume_outcome clock t0 r c (machine sys) Hres)
      as (t' & m' & -> & Hout).
    intros [= <-]. unfold SingleFlight. cbn [parked machine].
    destruct t' as [t'|]; cbn [addTask app].
    + destruct Hout as (_ & _ & _ & ->). exact Hinv.
    + now destruct Hout as (Hoff & _).
Qed.

Lemma run_SingleFlight acts : forall sys sys',
  SingleFlight sys -> run clock acts sys = Some sys' -> SingleFlight sys'.
Proof.
  induction acts as [|a acts IH]; intros sys sys' Hinv; cbn [run].
  - now intros [= <-].
  - destruct (step clock a sys) as [sys1|] eqn:Hstep; [|discriminate].
    apply IH. eapply step_SingleFlight; eauto.
Qed.
(** The transition system is not stuck: the entry point can always be
called, and a parked invocation can always be resumed with the answer it
waits for. *)
Lemma step_call_enabled sys :
  exists sys', step clock CallBroadcastRankChanges sys = Some sys'.
Proof.
  cbn [step]. unfold launch.
  destruct (broadcastRankChanges_flag (machine sys)) as (t & m' & -> & _).
  eauto.
Qed.

Lemma step_resume_enabled script sys i t :
  nth_error (parked sys) i = Some t ->
  exists sys', step clock (Resume i (respond script (stage t))) sys = Some sys'.
Proof.
  intro Hnth. cbn [step]. rewrite Hnth.
  destruct (resume_respond clock script t) as (c & Hc). rewrite Hc.
  unfold launch. cbn [machine].
  destruct (resume_outcome clock t _ c (machine sys) Hc) as (t' & m' & -> & _).
  eauto.
Qed.
End SingleFlightFacts.

(** C5: while the flag is set, an invocation of the entry point performs no
    cycle step and changes nothing in the service; and in every state the
    service can reach, under any interleaving of calls, timer fires and
    resumptions, at most one invocation is inside the cycle, and the flag is
    set exactly then. *)
Theorem single_flight (clock : nat -> Z) :
  (forall m,
     isBroadcasting (svc m) = true ->
     exists m',
       broadcastRankChanges clock m = (Returned None, m')
       /\ svc m' = svc m
       /\ trace m' = trace m)
  /\ (forall sys,
        Reachable clock sys ->
        (List.length (parked sys) <= 1)%nat
        /\ (isBroadcasting (svc (machine sys)) = true <-> parked sys <> [])).
Proof.
  split.
  - intros m Hflag. eexists. split; [|split].
    + apply broadcastRankChanges_skip. now right.
    + reflexivity.
    + reflexivity.
  - intros sys (acts & Hrun).
    assert (SingleFlight sys) as Hinv.
    { eapply run_SingleFlight; [|exact Hrun]. reflexivity. }
    unfold SingleFlight in Hinv.
    destruct (parked sys) as [|t0 [|t1 l]]; [| |easy]; cbn.
    + split; [lia|]. rewrite Hinv. split; [discriminate|congruence].
    + split; [lia|]. rewrite Hinv. split; [discriminate|reflexivity].
Qed.

Lemma single_flight_witness :
  exists sys,
    run sampleClock [CallInitialize deliverAll; CallStart; TimerFires;
                     CallBroadcastRankChanges]
        (initialSystem) = Some sys
    /\ List.length (parked sys) = 1%nat
    /\ isBroadcasting (svc (machine sys)) = true
    /\ cyclesStarted (trace (machine sys)) = 1%nat.
Proof.
  eexists. split; [vm_compute; reflexivity|].
  assert (Reachable sampleClock
            {| machine :=
                 {| svc := {| io := Some deliverAll; broadcastTimer := true;
                              lastBroadcastTime := 0; previousSnapshots := [];
                              isBroadcasting := true |};
                    trace := [RepoCall UpdateAllRanks]; clockReads := 3 |};
               parked := [ {| now := sampleClock 0;
                              stage := AwaitUpdateAllRanks |} ] |}) as Hreach.
  { exists [CallInitialize deliverAll; CallStart; TimerFires;
            CallBroadcastRankChanges]. vm_compute. reflexivity. }
  destruct (proj2 (single_flight sampleClock) _ Hreach) as [Hlen Hiff].
  split; [reflexivity|]. split; [|reflexivity].
  apply Hiff. discriminate.
Defined.


(** * Further properties of the code *)

(** ** [Map] insert and lookup *)

Section JsMapLookup.
Context {V : Type}.
Implicit Types (m : JsMap V) (k : string) (v : V).

Lemma Map_get_set_same m k v : Map_get (Map_set m k v) k = Some v.
Proof.
  induction m as [|[k' v'] m IH]; cbn.
  - now rewrite String.eqb_refl.
  - destruct (String.eqb_spec k k') as [->|Hne]; cbn.
    + now rewrite String.eqb_refl.
    + destruct (String.eqb_spec k k'); [contradiction|exact IH].
Qed.

Lemma Map_get_set_other m k k' v :
  k' <> k -> Map_get (Map_set m k v) k' = Map_get m k'.
Proof.
  intro Hne. induction m as [|[k0 v0] m IH]; cbn.
  - destruct (String.eqb_spec k' k); [contradiction|reflexivity].
  - destruct (String.eqb_spec k k0) as [->|Hk]; cbn.
    + destruct (String.eqb_spec k' k0); [contradiction|reflexivity].
    + destruct (String.eqb_spec k' k0); [reflexivity|exact IH].
Qed.

Lemma Map_get_None_keys m k : Map_get m k = None <-> ~ In k (Map_keys m).
Proof.
  unfold Map_keys. induction m as [|[k' v'] m IH]; cbn; [tauto|].
  destruct (String.eqb_spec k k') as [->|Hne].
  - split; [discriminate|]. intro H. exfalso. apply H. now left.
  - rewrite IH. split.
    + intros Hn [Heq|Hin]; [congruence|contradiction].
    + intros Hn Hin. apply Hn. now right.
Qed.
End JsMapLookup.

(** ** [getCurrentSnapshot] *)

Lemma find_snoc {A} (p : A -> bool) l x :
  find p (l ++ [x]) =
  match find p l with
  | Some y => Some y
  | None => if p x then Some x else None
  end.
Proof.
  induction l as [|y l IH]; cbn; [reflexivity|].
  destruct (p y); [reflexivity|exact IH].
Qed.

Lemma buildSnapshot_fold rows ts :
  buildSnapshot rows ts
  = fold_left (fun snapshot lb => Map_set snapshot (lb_userId lb) (entryOf ts lb))
      rows [].
Proof. reflexivity. Qed.

Lemma snapshot_fold_get ts uid rows : forall acc : JsMap RankSnapshot,
  Map_get
    (fold_left (fun snapshot lb => Map_set snapshot (lb_userId lb) (entryOf ts lb))
       rows acc) uid
  = match lastRowOf uid rows with
    | Some lb => Some (entryOf ts lb)
    | None => Map_get acc uid
    end.
Proof.
  unfold lastRowOf.
  induction rows as [|lb rows IH]; intro acc; [reflexivity|].
  cbn [fold_left rev]. rewrite IH, find_snoc.
  destruct (find _ (rev rows)) as [lb'|]; [reflexivity|].
  destruct (String.eqb_spec uid (lb_userId lb)) as [->|Hne].
  - apply Map_get_set_same.
  - now apply Map_get_set_other.
Qed.

Lemma snapshot_fold_keys ts rows : forall acc : JsMap RankSnapshot,
  (forall k, In k (Map_keys
                     (fold_left
                        (fun snapshot lb =>
                           Map_set snapshot (lb_userId lb) (entryOf ts lb))
                        rows acc))
             <-> In k (Map_keys acc) \/ In k (map lb_userId rows))
  /\ (List.length
        (fold_left
           (fun snapshot lb => Map_set snapshot (lb_userId lb) (entryOf ts lb))
           rows acc)
      <= List.length acc + List.length rows)%nat
  /\ (NoDup (Map_keys acc ++ map lb_userId rows) ->
      Map_keys
        (fold_left
           (fun snapshot lb => Map_set snapshot (lb_userId lb) (entryOf ts lb))
           rows acc)
      = (Map_keys acc ++ map lb_userId rows)%list).
Proof.
  induction rows as [|lb rows IH]; intro acc; cbn [fold_left map].
  - split; [|split].
    + intro k. cbn. tauto.
    + cbn. lia.
    + intros _. now rewrite app_nil_r.
  - destruct (IH (Map_set acc (lb_userId lb) (entryOf ts lb)))
      as (Hin & Hlen & Hord).
    assert (Hkeys := Map_keys_set acc (lb_userId lb) (entryOf ts lb)).
    split; [|split].
    + intro k. rewrite Hin, Hkeys.
      destruct (existsb (String.eqb (lb_userId lb)) (Map_keys acc)) eqn:Hex.
      * apply existsb_exists in Hex as (k0 & Hk0 & Heq).
        apply String.eqb_eq in Heq. subst k0. cbn.
        split; [tauto|]. intros [H|[<-|H]]; auto.
      * rewrite in_app_iff. cbn. tauto.
    + assert (List.length (Map_set acc (lb_userId lb) (entryOf ts lb))
              <= S (List.length acc))%nat as Hset.
      { unfold Map_keys in Hkeys.
        rewrite <- (length_map fst (Map_set _ _ _)), Hkeys.
        destruct (existsb _ _); rewrite ?length_app, !length_map; cbn; lia. }
      cbn [List.length]. lia.
    + intro Hnd. rewrite Hord; rewrite Hkeys.
      * destruct (existsb (String.eqb (lb_userId lb)) (Map_keys acc)) eqn:Hex.
        -- exfalso. apply existsb_exists in Hex as (k0 & Hk0 & Heq).
           apply String.eqb_eq in Heq. subst k0.
           apply NoDup_remove_2 in Hnd. apply Hnd.
           apply in_or_app. now left.
        -- now rewrite <- app_assoc.
      * destruct (existsb (String.eqb (lb_userId lb)) (Map_keys acc)) eqn:Hex.
        -- exfalso. apply existsb_exists in Hex as (k0 & Hk0 & Heq).
           apply String.eqb_eq in Heq. subst k0.
           apply NoDup_remove_2 in Hnd. apply Hnd.
           apply in_or_app. now left.
        -- rewrite <- app_assoc. exact Hnd.
Qed.

Lemma buildSnapshot_get rows ts uid :
  Map_get (buildSnapshot rows ts) uid = option_map (entryOf ts) (lastRowOf uid rows).
Proof.
  rewrite buildSnapshot_fold, snapshot_fold_get.
  now destruct (lastRowOf uid rows).
Qed.

(** X1: looking a user up in the snapshot built from the repository's rows
    gives the entry of the last row with that user id, stamped with the
    snapshot's timestamp, and nothing when no row has that id. *)
Theorem buildSnapshot_lookup (rows : list LeaderboardRow) (ts : Z) (uid : string) :
  Map_get (buildSnapshot rows ts) uid = option_map (entryOf ts) (lastRowOf uid rows)
  /\ (Map_get (buildSnapshot rows ts) uid = None
      <-> ~ In uid (map lb_userId rows))
  /\ (forall entry,
        Map_get (buildSnapshot rows ts) uid = Some entry ->
        rs_userId entry = uid /\ rs_timestamp entry = ts).
Proof.
  pose proof (buildSnapshot_get rows ts uid) as Hget.
  split; [exact Hget|]. split.
  - rewrite Map_get_None_keys, buildSnapshot_fold.
    destruct (snapshot_fold_keys ts rows []) as (Hin & _).
    rewrite Hin. cbn. tauto.
  - intros entry. rewrite Hget. unfold lastRowOf.
    destruct (find _ (rev rows)) as [lb|] eqn:Hfind; [|discriminate].
    apply find_some in Hfind as [_ Heq]. apply String.eqb_eq in Heq.
    cbn. intros [= <-]. cbn. auto.
Qed.

(** A user listed twice is stored once, with the ranks of the later row. *)
Example buildSnapshot_repeat :
  map (fun kv => (fst kv, globalRank (snd kv), weeklyRank (snd kv)))
      (buildSnapshot rowsWithRepeat 7)
  = [("U1", 9, 3); ("U2", 200, 9)].
Proof. reflexivity. Qed.

(** X2: the snapshot has one entry per distinct user id of the rows, so never
    more entries than rows; when no user id repeats, its iteration order is
    the order of the rows. *)
Theorem buildSnapshot_keys (rows : list LeaderboardRow) (ts : Z) :
  NoDup (Map_keys (buildSnapshot rows ts))
  /\ (forall uid, In uid (Map_keys (buildSnapshot rows ts))
                  <-> In uid (map lb_userId rows))
  /\ Map_size (buildSnapshot rows ts) <= Z.of_nat (List.length rows)
  /\ (NoDup (map lb_userId rows) ->
      Map_keys (buildSnapshot rows ts) = map lb_userId rows).
Proof.
  destruct (snapshot_fold_keys ts rows []) as (Hin & Hlen & Hord).
  rewrite <- buildSnapshot_fold in Hin, Hlen, Hord.
  split; [apply buildSnapshot_wf|]. split; [|split].
  - intro uid. rewrite Hin. cbn. tauto.
  - unfold Map_size. cbn in Hlen. lia.
  - exact Hord.
Qed.

Lemma buildSnapshot_keys_witness :
  NoDup (map lb_userId rowsAfter)
  /\ Map_keys (buildSnapshot rowsAfter 2000) = map lb_userId rowsAfter.
Proof.
  assert (NoDup (map lb_userId rowsAfter)) as Hnd.
  { cbn. repeat constructor; cbn; intuition discriminate. }
  split; [exact Hnd|].
  exact (proj2 (proj2 (proj2 (buildSnapshot_keys rowsAfter 2000))) Hnd).
Defined.

(** ** [detectRankChanges]: which events, and how many *)

Lemma changeFor_rankMoved previous entry :
  map userId (changeFor previous entry)
  = if rankMoved previous entry then [fst entry] else [].
Proof.
  destruct entry as [uid c]. unfold changeFor, rankMoved. cbn [fst snd].
  destruct (Map_get previous uid) as [p|]; [|reflexivity].
  now destruct (negb (globalRank c =? globalRank p)
                || negb (weeklyRank c =? weeklyRank p)).
Qed.

Lemma collectChanges_users previous current :
  map userId (collectChanges previous current)
  = map fst (filter (rankMoved previous) (Map_entries current)).
Proof.
  unfold collectChanges, Map_entries.
  induction current as [|entry current IH]; [reflexivity|].
  cbn [flat_map filter]. rewrite map_app, IH, changeFor_rankMoved.
  now destruct (rankMoved previous entry).
Qed.

Lemma NoDup_map_fst_filter {A B} (f : A * B -> bool) (l : list (A * B)) :
  NoDup (map fst l) -> NoDup (map fst (filter f l)).
Proof.
  induction l as [|x l IH]; cbn; [easy|].
  intro Hnd. inversion Hnd as [|? ? Hnotin Hnd']; subst.
  destruct (f x); cbn; [|auto].
  constructor; [|auto].
  intro Hin. apply Hnotin. apply in_map_iff in Hin as (y & Hy & Hin).
  apply filter_In in Hin as [Hin _]. apply in_map_iff. eauto.
Qed.

(** X3: with unique keys in the current snapshot, an event is in the diff
    exactly when its user has an entry in both snapshots, the global or the
    weekly rank differs between them, and the event carries those four ranks,
    the difference of the global ranks and the current entry's timestamp. *)
Theorem detectRankChanges_membership (previous current : JsMap RankSnapshot)
    (Hwf : MapWf current) (e : RankChangeEvent) :
  In e (detectRankChanges previous current)
  <-> exists p c,
        Map_get previous (userId e) = Some p
        /\ Map_get current (userId e) = Some c
        /\ (globalRank c <> globalRank p \/ weeklyRank c <> weeklyRank p)
        /\ e = {| userId := userId e;
                  previousGlobalRank := globalRank p;
                  currentGlobalRank := globalRank c;
                  previousWeeklyRank := weeklyRank p;
                  currentWeeklyRank := weeklyRank c;
                  rankChange := globalRank p - globalRank c;
                  timestamp := rs_timestamp c |}.
Proof.
  rewrite detectRankChanges_In, collectChanges_In. split.
  - intros (uid & c & Hin & He).
    apply changeFor_inv in He as (p & Hp & Hdiff & ->). cbn [userId].
    exists p, c. repeat split; auto. now apply Map_get_In.
  - intros (p & c & Hp & Hc & Hdiff & He).
    exists (userId e), c. split; [now apply Map_get_Some_In|].
    unfold changeFor. rewrite Hp.
    destruct (Z.eqb_spec (globalRank c) (globalRank p)) as [Hg|Hg];
    destruct (Z.eqb_spec (weeklyRank c) (weeklyRank p)) as [Hw|Hw];
      cbn [negb orb]; try (left; congruence).
    destruct Hdiff; contradiction.
Qed.

Lemma detectRankChanges_membership_witness :
  MapWf snapshotAfter
  /\ In (mkRankChangeEvent "U2" 200 140 9 9 60 2000)
        (detectRankChanges snapshotBefore snapshotAfter).
Proof.
  pose proof (buildSnapshot_wf rowsAfter 2000) as Hwf.
  split; [exact Hwf|].
  apply (detectRankChanges_membership snapshotBefore snapshotAfter Hwf).
  exists (mkRankSnapshot "U2" 200 9 100 10 1000),
         (mkRankSnapshot "U2" 140 9 400 10 2000).
  repeat split. left. cbn. discriminate.
Defined.

(** X4: with unique keys in the current snapshot, the diff holds at most one
    event per user, and as many events as the current snapshot has entries
    whose user has a previous entry with a different global or weekly rank. *)
Theorem detectRankChanges_one_per_user (previous current : JsMap RankSnapshot)
    (Hwf : MapWf current) :
  NoDup (map userId (detectRankChanges previous current))
  /\ List.length (detectRankChanges previous current)
     = List.length (filter (rankMoved previous) (Map_entries current))
  /\ (List.length (detectRankChanges previous current)
      <= List.length (Map_entries current))%nat.
Proof.
  assert (Permutation (detectRankChanges previous current)
            (collectChanges previous current)) as Hperm.
  { apply Array_sort_perm. }
  assert (List.length (detectRankChanges previous current)
          = List.length (filter (rankMoved previous) (Map_entries current)))
    as Hlen.
  { rewrite (Permutation_length Hperm).
    rewrite <- (length_map userId), collectChanges_users.
    apply length_map. }
  split; [|split].
  - eapply Permutation_NoDup.
    + apply Permutation_map. symmetry. exact Hperm.
    + rewrite collectChanges_users. now apply NoDup_map_fst_filter.
  - exact Hlen.
  - rewrite Hlen. apply filter_length_le.
Qed.

Lemma detectRankChanges_one_per_user_witness :
  MapWf snapshotAfter
  /\ NoDup (map userId (detectRankChanges snapshotBefore snapshotAfter))
  /\ List.length (detectRankChanges snapshotBefore snapshotAfter) = 4%nat.
Proof.
  pose proof (buildSnapshot_wf rowsAfter 2000) as Hwf.
  destruct (detectRankChanges_one_per_user snapshotBefore snapshotAfter Hwf)
    as (Hnd & Hlen & _).
  split; [exact Hwf|]. split; [exact Hnd|]. rewrite Hlen. reflexivity.
Defined.

(** X5: every event of a cycle's diff is stamped with the time at which the
    current snapshot was taken and carries, as current ranks, the ranks of
    the last repository row for its user. *)
Theorem detectRankChanges_consistent_cut (previous : JsMap RankSnapshot)
    (rows : list LeaderboardRow) (ts : Z) (e : RankChangeEvent) :
  In e (detectRankChanges previous (buildSnapshot rows ts)) ->
  timestamp e = ts
  /\ exists lb,
       lastRowOf (userId e) rows = Some lb
       /\ currentGlobalRank e = lb_globalRank lb
       /\ currentWeeklyRank e = lb_weeklyRank lb.
Proof.
  intro He.
  apply detectRankChanges_In, collectChanges_In in He as (uid & c & Hin & He).
  apply changeFor_inv in He as (p & _ & _ & ->). cbn [userId timestamp
    currentGlobalRank currentWeeklyRank].
  apply (Map_get_In _ _ _ (buildSnapshot_wf rows ts)) in Hin.
  rewrite buildSnapshot_get in Hin.
  destruct (lastRowOf uid rows) as [lb|]; [|discriminate].
  cbn in Hin. injection Hin as <-. cbn. eauto.
Qed.

Lemma detectRankChanges_consistent_cut_witness :
  In (mkRankChangeEvent "U1" 12 8 4 4 4 2000)
     (detectRankChanges snapshotBefore (buildSnapshot rowsAfter 2000))
  /\ timestamp (mkRankChangeEvent "U1" 12 8 4 4 4 2000) = 2000.
Proof.
  assert (In (mkRankChangeEvent "U1" 12 8 4 4 4 2000)
            (detectRankChanges snapshotBefore (buildSnapshot rowsAfter 2000)))
    as Hin.
  { cbn. right. now left. }
  split; [exact Hin|].
  exact (proj1 (detectRankChanges_consistent_cut snapshotBefore rowsAfter 2000
                  _ Hin)).
Defined.

(** ** What the private messages carry *)

Lemma improved_flag a b : (a - b >? 0) = (b <? a).
Proof. destruct (Z.gtb_spec (a - b) 0), (Z.ltb_spec b a); auto; lia. Qed.

(** X6: with unique keys in the current snapshot and the transport bound,
    every rank-change message of a cycle's batch goes to the room of one user
    and is built from that user's own two snapshot entries alone: the four
    ranks, their global difference, [improved] exactly when the global rank
    number went down, and the current entry's timestamp. *)
Theorem private_payload_own_ranks (previous current : JsMap RankSnapshot)
    (server : SocketIOServer) (m : Machine)
    (Hwf : MapWf current) (Hio : io (svc m) = Some server) :
  exists m' added,
    broadcastPrivateRankChanges (detectRankChanges previous current) m
    = (Returned tt, m')
    /\ trace m' = (trace m ++ added)%list
    /\ forall em,
         In em (attempted added) ->
         exists uid p c,
           Map_get previous uid = Some p
           /\ Map_get current uid = Some c
           /\ em = {| room := userRoom uid;
                      eventName := "rank_changed";
                      payload :=
                        JObj [ ("type", JStr "rank_changed");
                               ("previousGlobalRank", JNum (globalRank p));
                               ("currentGlobalRank", JNum (globalRank c));
                               ("previousWeeklyRank", JNum (weeklyRank p));
                               ("currentWeeklyRank", JNum (weeklyRank c));
                               ("rankChange", JNum (globalRank p - globalRank c));
                               ("improved", JBool (globalRank c <? globalRank p));
                               ("timestamp", JNum (rs_timestamp c)) ] |}.
Proof.
  unfold broadcastPrivateRankChanges, bind. cbn [getService].
  unfold isBound. rewrite Hio. cbn [negb].
  destruct (privateLoop_run server (detectRankChanges previous current) m Hio)
    as (m' & Hrun & _ & _ & added & Htr & Hatt).
  exists m', added. split; [exact Hrun|]. split; [exact Htr|].
  intros em Hem. rewrite Hatt in Hem.
  apply in_map_iff in Hem as (e & <- & He).
  apply detectRankChanges_In, collectChanges_In in He as (uid & c & Hin & He).
  apply changeFor_inv in He as (p & Hp & _ & ->).
  exists uid, p, c. split; [exact Hp|]. split; [now apply Map_get_In|].
  unfold rankChangedEmission, rankChangedPayload. cbn.
  now rewrite improved_flag.
Qed.

Lemma private_payload_own_ranks_witness :
  exists m' added,
    broadcastPrivateRankChanges (detectRankChanges snapshotBefore snapshotAfter)
      (warmMachine (Some deliverAll)) = (Returned tt, m')
    /\ trace m' = (trace (warmMachine (Some deliverAll)) ++ added)%list
    /\ List.length (attempted added) = 4%nat.
Proof.
  destruct (private_payload_own_ranks snapshotBefore snapshotAfter deliverAll
              (warmMachine (Some deliverAll)) (buildSnapshot_wf rowsAfter 2000)
              eq_refl) as (m' & added & Hrun & Htr & _).
  exists m', added. split; [exact Hrun|]. split; [exact Htr|].
  assert (snd (broadcastPrivateRankChanges
                 (detectRankChanges snapshotBefore snapshotAfter)
                 (warmMachine (Some deliverAll))) = m') as Hm
    by (now rewrite Hrun).
  cbn in Htr. rewrite <- Htr, <- Hm. reflexivity.
Defined.

(** ** Achievements and the direction of the move *)

(** X7: for an event of the diff, whose [rankChange] is the previous minus
    the current global rank, a global rank that did not improve can earn
    nothing but [weekly_leader]; and entering the top 10 from outside the top
    100 earns [top_10_global], [top_100_global] and [big_climb] together. *)
Theorem achievements_follow_direction (previous current : JsMap RankSnapshot)
    (e : RankChangeEvent) (He : In e (detectRankChanges previous current)) :
  (previousGlobalRank e <= currentGlobalRank e ->
   incl (map a_type (detectAchievements e)) ["weekly_leader"])
  /\ (currentGlobalRank e <= 10 -> previousGlobalRank e > 100 ->
      incl ["top_10_global"; "top_100_global"; "big_climb"]
           (map a_type (detectAchievements e))).
Proof.
  apply detectRankChanges_inv in He
    as (c & p & _ & _ & _ & Hpg & Hcg & _ & _ & Hrc).
  rewrite detectAchievements_types.
  split.
  - intro Hworse.
    destruct (Z.leb_spec (currentGlobalRank e) 10);
    destruct (Z.gtb_spec (previousGlobalRank e) 10);
    destruct (Z.leb_spec (currentGlobalRank e) 100);
    destruct (Z.gtb_spec (previousGlobalRank e) 100);
    destruct (Z.geb_spec (rankChange e) 50);
    cbn [andb app]; try lia;
    destruct ((currentWeeklyRank e =? 1) && negb (previousWeeklyRank e =? 1));
    intros k Hk; cbn in Hk |- *; tauto.
  - intros Hin Hout.
    destruct (Z.leb_spec (currentGlobalRank e) 10); [|lia].
    destruct (Z.gtb_spec (previousGlobalRank e) 10); [|lia].
    destruct (Z.leb_spec (currentGlobalRank e) 100); [|lia].
    destruct (Z.gtb_spec (previousGlobalRank e) 100); [|lia].
    destruct (Z.geb_spec (rankChange e) 50); [|lia].
    cbn [andb app]. intros k Hk. cbn in Hk |- *. tauto.
Qed.

Lemma achievements_follow_direction_witness :
  In (mkRankChangeEvent "U5" 16 20 1 2 (-4) 2000)
     (detectRankChanges snapshotBefore snapshotAfter)
  /\ incl (map a_type
             (detectAchievements (mkRankChangeEvent "U5" 16 20 1 2 (-4) 2000)))
          ["weekly_leader"].
Proof.
  assert (In (mkRankChangeEvent "U5" 16 20 1 2 (-4) 2000)
            (detectRankChanges snapshotBefore snapshotAfter)) as Hin.
  { cbn. do 2 right. now left. }
  split; [exact Hin|].
  apply (proj1 (achievements_follow_direction snapshotBefore snapshotAfter _ Hin)).
  cbn. discriminate.
Defined.

(** ** Scheduler *)

Section SchedulerFacts.
Variable clock : nat -> Z.

Lemma broadcastRankChanges_returns m :
  exists t, fst (broadcastRankChanges clock m) = Returned t.
Proof.
  destruct (broadcastRankChanges_cases clock m) as [Hskip|[Hgap Hflag]].
  - rewrite broadcastRankChanges_skip by assumption. cbn. eauto.
  - rewrite broadcastRankChanges_enter by assumption. cbn. eauto.
Qed.

Lemma System_eta sys : {| machine := machine sys; parked := parked sys |} = sys.
Proof. now destruct sys. Qed.

Lemma start_running m :
  broadcastTimer (svc m) = true -> start clock m = (Returned None, m).
Proof.
  intro H. unfold start, bind. cbn [getService]. now rewrite H.
Qed.
End SchedulerFacts.

(** X8: [start()] always leaves the timer armed, and calling it again while
    the timer is armed changes nothing: no second timer, no invocation of the
    cycle, no clock read. *)
Theorem start_idempotent (clock : nat -> Z) (sys : System) :
  exists sys1,
    step clock CallStart sys = Some sys1
    /\ broadcastTimer (svc (machine sys1)) = true
    /\ step clock CallStart sys1 = Some sys1.
Proof.
  assert (forall s, broadcastTimer (svc (machine s)) = true ->
                    step clock CallStart s = Some s) as Hagain.
  { intros s Hs. cbn [step]. unfold launch.
    rewrite start_running by assumption. cbn [addTask]. now rewrite System_eta. }
  destruct (broadcastTimer (svc (machine sys))) eqn:Htimer.
  - exists sys. auto.
  - cbn [step]. unfold launch, start, bind at 1. cbn [getService].
    rewrite Htimer. unfold bind at 1.
    destruct (broadcastRankChanges_returns clock (machine sys)) as (t & Ht).
    destruct (broadcastRankChanges clock (machine sys)) as [[t'|e] m1];
      cbn in Ht; [|discriminate].
    cbn. eexists. split; [reflexivity|]. split; [reflexivity|].
    now apply Hagain.
Qed.

(** X9: [stop()] disarms the timer and nothing else: an invocation that is in
    flight stays parked and can still be resumed, the flag, the snapshot and
    the last-broadcast time are untouched, nothing is sent, and no timer fire
    reaches the entry point afterwards. *)
Theorem stop_only_disarms (clock : nat -> Z) (sys : System) :
  exists sys',
    step clock CallStop sys = Some sys'
    /\ broadcastTimer (svc (machine sys')) = false
    /\ parked sys' = parked sys
    /\ isBroadcasting (svc (machine sys')) = isBroadcasting (svc (machine sys))
    /\ previousSnapshots (svc (machine sys')) = previousSnapshots (svc (machine sys))
    /\ lastBroadcastTime (svc (machine sys')) = lastBroadcastTime (svc (machine sys))
    /\ io (svc (machine sys')) = io (svc (machine sys))
    /\ trace (machine sys') = trace (machine sys)
    /\ step clock TimerFires sys' = None
    /\ (forall script i t,
          nth_error (parked sys') i = Some t ->
          exists sys'',
            step clock (Resume i (respond script (stage t))) sys' = Some sys'').
Proof.
  assert (exists m',
            stop (machine sys) = (Returned tt, m')
            /\ svc m' = set_broadcastTimer false (svc (machine sys))
            /\ trace m' = trace (machine sys)) as (m' & Hstop & Hsvc & Htr).
  { unfold stop, bind. cbn [getService].
    destruct (broadcastTimer (svc (machine sys))) eqn:Htimer.
    - eexists. split; [reflexivity|]. split; reflexivity.
    - exists (machine sys). split; [reflexivity|]. split; [|reflexivity].
      destruct (svc (machine sys)). cbn in *. now subst. }
  exists {| machine := m'; parked := parked sys |}. split.
  { cbn [step]. unfold launch, bind. now rewrite Hstop. }
  cbn [machine parked]. rewrite Hsvc, Htr. cbn.
  repeat (split; [reflexivity|]). split.
  - now rewrite Hsvc.
  - intros script i t Hnth.
    now apply (step_resume_enabled clock script
                 {| machine := m'; parked := parked sys |} i t).
Qed.

(** X10: the entry point starts a cycle exactly when at least
    [MIN_BROADCAST_GAP_MS] have passed since the last successful cycle's
    start and no cycle is in flight; an elapsed time equal to the gap
    passes.  Since the timer's interval is longer than the gap, a fire one
    interval after a successful start is never held back by the gap. *)
Theorem entry_point_decision (clock : nat -> Z) (m : Machine) :
  ((exists t, fst (broadcastRankChanges clock m) = Returned (Some t))
   <-> MIN_BROADCAST_GAP_MS <= clock (clockReads m) - lastBroadcastTime (svc m)
       /\ isBroadcasting (svc m) = false)
  /\ (lastBroadcastTime (svc m) + BROADCAST_INTERVAL_MS <= clock (clockReads m) ->
      isBroadcasting (svc m) = false ->
      broadcastRankChanges clock m
      = (Returned (Some {| now := clock (clockReads m);
                           stage := AwaitUpdateAllRanks |}),
         {| svc := set_isBroadcasting true (svc m);
            trace := trace m ++ [RepoCall UpdateAllRanks];
            clockReads := S (clockReads m) |})).
Proof.
  split.
  - destruct (broadcastRankChanges_cases clock m) as [Hskip|[Hgap Hflag]].
    + rewrite broadcastRankChanges_skip by assumption. cbn. split.
      * intros (t & Ht). discriminate.
      * intros [Hgap Hflag]. exfalso.
        destruct Hskip as [Hsoon|Hon]; [|congruence].
        unfold MIN_BROADCAST_GAP_MS in *. lia.
    + rewrite broadcastRankChanges_enter by assumption. cbn. split; eauto.
  - intros Hinterval Hflag. apply broadcastRankChanges_enter; [|assumption].
    unfold BROADCAST_INTERVAL_MS, MIN_BROADCAST_GAP_MS in *. lia.
Qed.

Lemma entry_point_decision_witness :
  lastBroadcastTime (svc (warmMachine None)) + BROADCAST_INTERVAL_MS
    <= sampleClock (clockReads (warmMachine None))
  /\ fst (broadcastRankChanges sampleClock (warmMachine None))
     = Returned (Some {| now := sampleClock 0; stage := AwaitUpdateAllRanks |}).
Proof.
  assert (lastBroadcastTime (svc (warmMachine None)) + BROADCAST_INTERVAL_MS
          <= sampleClock (clockReads (warmMachine None))) as Hint.
  { vm_compute. discriminate. }
  split; [exact Hint|].
  now rewrite (proj2 (entry_point_decision sampleClock (warmMachine None))
                 Hint eq_refl).
Defined.

(** ** A cycle without a transport *)

Lemma broadcastPrivateRankChanges_unbound changes m :
  io (svc m) = None -> broadcastPrivateRankChanges changes m = (Returned tt, m).
Proof.
  intro Hio. unfold broadcastPrivateRankChanges, bind. cbn [getService].
  unfold isBound. now rewrite Hio.
Qed.

Lemma broadcastAchievements_unbound clock changes m :
  io (svc m) = None -> broadcastAchievements clock changes m = (Returned tt, m).
Proof.
  intro Hio. unfold broadcastAchievements, bind. cbn [getService].
  unfold isBound. now rewrite Hio.
Qed.

(** X11: with no transport bound, a cycle whose [updateAllRanks] and
    [findMany] answer makes exactly those two repository calls, never asks
    for the top lists, sends nothing, and still stores the new snapshot and
    its start time. *)
Theorem cycle_without_transport (clock : nat -> Z) (script : SourceScript)
    (m : Machine) (rows : list LeaderboardRow)
    (Hio : io (svc m) = None)
    (Hgap : MIN_BROADCAST_GAP_MS
            <= clock (clockReads m) - lastBroadcastTime (svc m))
    (Hflag : isBroadcasting (svc m) = false)
    (Hupdate : onUpdateAllRanks script = Returned tt)
    (Hfind : onFindMany script = Returned rows) :
  exists m',
    runCycle clock script m = Some m'
    /\ trace m' = (trace m ++ [RepoCall UpdateAllRanks; RepoCall FindMany])%list
    /\ previousSnapshots (svc m') = buildSnapshot rows (clock (S (clockReads m)))
    /\ lastBroadcastTime (svc m') = clock (clockReads m)
    /\ isBroadcasting (svc m') = false
    /\ io (svc m') = None.
Proof.
  unfold runCycle. rewrite broadcastRankChanges_enter by assumption.
  rewrite drive_S. cbn [stage respond]. rewrite Hupdate. cbn -[drive].
  rewrite drive_S. cbn [stage respond rowsResponse]. rewrite Hfind.
  cbn -[drive buildSnapshot].
  rewrite drive_S. cbn [stage respond resume now continuation].
  unfold inCycleTry at 1, bind at 1. cbn [getService svc].
  unfold bind at 1.
  rewrite broadcastPrivateRankChanges_unbound by (cbn; exact Hio).
  cbn -[drive buildSnapshot detectRankChanges].
  rewrite drive_S. cbn [stage respond resume now continuation].
  unfold inCycleTry at 1, bind at 1. cbn [getService svc].
  unfold isBound. cbn [io set_isBroadcasting]. rewrite Hio.
  cbn -[drive buildSnapshot detectRankChanges].
  rewrite drive_S. cbn [stage respond resume now continuation].
  unfold inCycleTry at 1, bind at 1.
  rewrite broadcastAchievements_unbound by (cbn; exact Hio).
  cbn -[drive buildSnapshot detectRankChanges].
  rewrite drive_S. cbn -[drive buildSnapshot detectRankChanges].
  eexists. split; [reflexivity|]. cbn.
  rewrite <- app_assoc. cbn. auto.
Qed.

Lemma cycle_without_transport_witness :
  exists m',
    runCycle sampleClock (allAnswer rowsAfter) (warmMachine None) = Some m'
    /\ trace m' = [RepoCall UpdateAllRanks; RepoCall FindMany]
    /\ lastBroadcastTime (svc m') = sampleClock 0.
Proof.
  assert (MIN_BROADCAST_GAP_MS
          <= sampleClock (clockReads (warmMachine None))
             - lastBroadcastTime (svc (warmMachine None))) as Hgap.
  { vm_compute. discriminate. }
  destruct (cycle_without_transport sampleClock (allAnswer rowsAfter)
              (warmMachine None) rowsAfter eq_refl Hgap eq_refl eq_refl eq_refl)
    as (m' & Hrun & Htr & _ & Hlast & _).
  exists m'. split; [exact Hrun|]. split; [exact Htr|exact Hlast].
Defined.

(** ** Who a cycle writes to *)

Lemma detectRankChanges_first_run current : detectRankChanges [] current = [].
Proof.
  unfold detectRankChanges, collectChanges, Map_entries.
  induction current as [|[uid c] current IH]; [reflexivity|exact IH].
Qed.

Section AddresseeFacts.
Variable clock : nat -> Z.

(** From the stage at which [rankChanges] exists, a resumption writes only to
the shared room and to users of [rankChanges]. *)
Lemma continuation_addressed now k r seg ch :
  continuation clock now k r = Some seg ->
  changesOf k = Some ch ->
  Emits (addressedTo ch) seg.
Proof.
  destruct k, r; cbn [continuation changesOf]; intros [= <-] [= <-].
  - js_step; [auto with js|].
    destruct (negb (isBound a)); [auto with js|].
    unfold publicTry. js_step; [|auto with js].
    js_step; [now apply Emits_repoCall|auto with js].
  - unfold publicTry. js_step; [|auto with js].
    js_step; [now apply Emits_repoCall|auto with js].
  - unfold publicTry. js_auto.
  - unfold publicTry. js_step; [|auto with js].
    js_step; [auto with js|]. js_step; [|auto with js].
    apply Emits_emit. intro d. now left.
  - unfold publicTry. js_auto.
  - js_step; [|auto with js].
    eapply Emits_weaken; [|apply broadcastAchievements_Emits].
    intros eff (c & a & ts & d & Hc & _ & ->). right. now exists c.
  - js_auto.
Qed.

(** The resumption that computes the diff writes only to its users. *)
Lemma continuation_diff_addressed now snap seg m :
  continuation clock now (AwaitCurrentSnapshot snap) Settled = Some seg ->
  exists added,
    trace (snd (seg m)) = (trace m ++ added)%list
    /\ Forall (addressedTo (detectRankChanges (previousSnapshots (svc m)) snap))
              added.
Proof.
  cbn [continuation]. intros [= <-].
  unfold bind at 1. cbn [getService]. unfold bind at 1.
  set (ch := detectRankChanges _ _).
  destruct (broadcastPrivateRankChanges_Emits ch m) as (l & El & Fl).
  exists l. split.
  - now destruct (broadcastPrivateRankChanges ch m) as [[[]|e] m1].
  - eapply Forall_impl; [|exact Fl].
    intros eff (c & d & Hc & ->). right. now exists c.
Qed.

(** Stages hand [rankChanges] on unchanged. *)
Lemma continuation_changes now k r seg m k' ch' :
  continuation clock now k r = Some seg ->
  fst (seg m) = Returned (Suspend k') ->
  changesOf k' = Some ch' ->
  changesOf k = Some ch'
  \/ exists snap,
       k = AwaitCurrentSnapshot snap
       /\ ch' = detectRankChanges (previousSnapshots (svc m)) snap.
Proof.
  destruct k, r; cbn [continuation]; intros [= <-].
  - cbn. intros [= <-]. discriminate.
  - cbn. discriminate.
  - cbn. intros [= <-]. discriminate.
  - cbn. discriminate.
  - unfold bind at 1. cbn [getService]. unfold bind at 1.
    destruct (broadcastPrivateRankChanges _ m) as [[[]|e] m1]; cbn;
      [|discriminate].
    intros [= <-]. cbn. intros [= <-]. right. eauto.
  - unfold bind at 1. cbn [getService].
    destruct (negb (isBound (svc m))); cbn; intros [= <-]; cbn; auto.
  - cbn. intros [= <-]. cbn. auto.
  - cbn. intros [= <-]. cbn. auto.
  - unfold publicTry, tryCatch, bind at 1. cbn [dateNow]. unfold bind at 1.
    match goal with |- context [emit ?a ?b ?c ?m1] =>
      destruct (emit a b c m1) as [[[]|e] m2] end; cbn;
      intros [= <-]; cbn; auto.
  - cbn. intros [= <-]. cbn. auto.
  - unfold bind at 1.
    destruct (broadcastAchievements _ _ m) as [[[]|e] m1]; cbn;
      [|discriminate].
    intros [= <-]. cbn. auto.
  - cbn. discriminate.
Qed.

Lemma drive_addressed script : forall fuel t m m' snap,
  carried (stage t) = Some snap ->
  diffCarried (previousSnapshots (svc m)) (stage t) ->
  drive clock fuel script (Some t) m = Some m' ->
  exists added,
    trace m' = (trace m ++ added)%list
    /\ Forall (addressedTo (detectRankChanges (previousSnapshots (svc m)) snap))
              added.
Proof.
  induction fuel as [|fuel IH]; intros t m m' snap Hcar Hdiff; [discriminate|].
  rewrite drive_S. destruct (resume_respond clock script t) as (c & Hc).
  rewrite Hc.
  pose proof Hc as Hres. unfold resume in Hres.
  destruct (continuation clock (now t) (stage t) (respond script (stage t)))
    as [seg|] eqn:Hk; [|discriminate]. injection Hres as <-.
  (* what this resumption writes *)
  assert (exists l1,
            trace (snd (seg m)) = (trace m ++ l1)%list
            /\ Forall (addressedTo
                         (detectRankChanges (previousSnapshots (svc m)) snap)) l1)
    as (l1 & E1 & F1).
  { destruct (changesOf (stage t)) as [ch|] eqn:Hch.
    - rewrite <- (Hdiff snap ch Hcar Hch).
      exact (continuation_addressed _ _ _ _ ch Hk Hch m).
    - destruct (stage t); try discriminate.
      injection Hcar as ->.
      assert (respond script (AwaitCurrentSnapshot snap) = Settled) as Hr
        by reflexivity.
      rewrite Hr in Hk. now apply continuation_diff_addressed with (now := now t). }
  pose proof (continuation_outcome clock _ _ _ _ m Hk) as Hout.
  pose proof (fun k' ch' => continuation_changes _ _ _ _ m k' ch' Hk) as Hnext.
  unfold inCycleTry.
  destruct (seg m) as [[[k'|]|e] m1] eqn:Hseg; cbn in E1.
  - destruct Hout as (_ & Hcar' & Hsvc). intro Hd.
    destruct (IH {| now := now t; stage := k' |} m1 m' snap) as (l2 & E2 & F2).
    + cbn. auto.
    + cbn. rewrite Hsvc. intros snap' ch' Hs' Hch'.
      rewrite (Hcar' snap Hcar) in Hs'. injection Hs' as <-.
      destruct (Hnext k' ch' eq_refl Hch') as [Hold|(snap0 & Hk0 & ->)].
      * now apply Hdiff.
      * rewrite Hk0 in Hcar. cbn in Hcar. now injection Hcar as ->.
    + exact Hd.
    + exists (l1 ++ l2)%list. rewrite E2, E1, app_assoc. split; [reflexivity|].
      apply Forall_app. split; [assumption|]. now rewrite <- Hsvc.
  - rewrite cycleFinally_run, drive_None. intros [= <-]. cbn. eauto.
  - rewrite cycleFinally_run, drive_None. intros [= <-]. cbn. eauto.
Qed.
End AddresseeFacts.

(** X12: in a cycle whose [updateAllRanks] and [findMany] answer, every
    message goes either to the shared room or to the private room of a user
    who has an event in the diff of the stored snapshot against the new one;
    in particular the first cycle of a service, which has nothing stored,
    sends no private message at all. *)
Theorem cycle_addressees (clock : nat -> Z) (script : SourceScript)
    (m : Machine) (rows : list LeaderboardRow)
    (Hgap : MIN_BROADCAST_GAP_MS
            <= clock (clockReads m) - lastBroadcastTime (svc m))
    (Hflag : isBroadcasting (svc m) = false)
    (Hupdate : onUpdateAllRanks script = Returned tt)
    (Hfind : onFindMany script = Returned rows) :
  exists m' added,
    runCycle clock script m = Some m'
    /\ trace m' = (trace m ++ added)%list
    /\ (forall e d,
          In (Emit e d) added ->
          room e = "leaderboard:global"
          \/ exists c,
               In c (detectRankChanges (previousSnapshots (svc m))
                       (buildSnapshot rows (clock (S (clockReads m)))))
               /\ room e = userRoom (userId c))
    /\ (previousSnapshots (svc m) = [] ->
        forall e d, In (Emit e d) added -> room e = "leaderboard:global").
Proof.
  destruct (runCycle_total clock script m) as (m' & Hrun).
  assert (exists added,
            trace m' = (trace m ++ added)%list
            /\ Forall (addressedTo
                         (detectRankChanges (previousSnapshots (svc m))
                            (buildSnapshot rows (clock (S (clockReads m))))))
                      added) as (added & Htr & Hall).
  { revert Hrun. unfold runCycle.
    rewrite broadcastRankChanges_enter by assumption.
    rewrite drive_S. cbn [stage respond]. rewrite Hupdate. cbn -[drive].
    rewrite drive_S. cbn [stage respond rowsResponse]. rewrite Hfind.
    cbn -[drive buildSnapshot]. intro Hd.
    apply drive_addressed
      with (snap := buildSnapshot rows (clock (S (clockReads m)))) in Hd
      as (l & El & Fl); [|reflexivity|intros snap ch _; discriminate].
    cbn in El, Fl.
    exists (RepoCall UpdateAllRanks :: RepoCall FindMany :: l).
    rewrite El, <- !app_assoc. split; [reflexivity|].
    repeat constructor. exact Fl. }
  exists m', added. split; [exact Hrun|]. split; [exact Htr|].
  rewrite Forall_forall in Hall. split.
  - intros e d Hin. exact (Hall _ Hin).
  - intros Hempty e d Hin. destruct (Hall _ Hin) as [Hpub|(c & Hc & _)];
      [exact Hpub|].
    rewrite Hempty, detectRankChanges_first_run in Hc. contradiction.
Qed.

Lemma cycle_addressees_witness :
  exists m' added,
    runCycle sampleClock (allAnswer rowsAfter) (freshMachine (Some deliverAll))
    = Some m'
    /\ trace m' = (trace (freshMachine (Some deliverAll)) ++ added)%list
    /\ forall e d, In (Emit e d) added -> room e = "leaderboard:global".
Proof.
  assert (MIN_BROADCAST_GAP_MS
          <= sampleClock (clockReads (freshMachine (Some deliverAll)))
             - lastBroadcastTime (svc (freshMachine (Some deliverAll)))) as Hgap.
  { vm_compute. discriminate. }
  destruct (cycle_addressees sampleClock (allAnswer rowsAfter)
              (freshMachine (Some deliverAll)) rowsAfter Hgap eq_refl eq_refl
              eq_refl) as (m' & added & Hrun & Htr & _ & Hfirst).
  exists m', added. split; [exact Hrun|]. split; [exact Htr|].
  now apply Hfirst.
Defined.

(** X13: a repository that returns the same rows as in the previous cycle
    gives an empty diff, whatever the two snapshot timestamps are: no
    rank-change event without a changed rank. *)
Theorem same_rows_no_events (rows : list LeaderboardRow) (ts0 ts1 : Z) :
  detectRankChanges (buildSnapshot rows ts0) (buildSnapshot rows ts1) = [].
Proof.
  destruct (detectRankChanges (buildSnapshot rows ts0) (buildSnapshot rows ts1))
    as [|e l] eqn:Hd; [reflexivity|].
  exfalso.
  assert (In e (detectRankChanges (buildSnapshot rows ts0)
                  (buildSnapshot rows ts1))) as He by (rewrite Hd; now left).
  apply detectRankChanges_inv in He as (c & p & Hin & Hp & Hdiff & _).
  apply (Map_get_In _ _ _ (buildSnapshot_wf rows ts1)) in Hin.
  rewrite buildSnapshot_get in Hin, Hp.
  destruct (lastRowOf (userId e) rows) as [lb|]; [|discriminate].
  cbn in Hin, Hp. injection Hin as <-. injection Hp as <-.
  cbn in Hdiff. destruct Hdiff; congruence.
Qed.

(** ** The order of a cycle's messages *)

Lemma attempted_Forall (P : Emission -> Prop) tr :
  Forall (fun eff => match eff with Emit e _ => P e | RepoCall _ => True end) tr ->
  Forall P (attempted tr).
Proof.
  induction 1 as [|[op|e d] tr Hx _ IH]; cbn; [constructor|exact IH|].
  constructor; assumption.
Qed.

Lemma ascending_app (q : nat) (l1 l2 : list nat) :
  Forall (eq q) l1 ->
  StronglySorted le l2 ->
  Forall (le q) l2 ->
  StronglySorted le (l1 ++ l2).
Proof.
  intros H1 H2 Hle. induction l1 as [|x l1 IH]; cbn; [exact H2|].
  inversion H1 as [|? ? <- Hrest]; subst.
  constructor; [now apply IH|].
  apply Forall_app. split; [|exact Hle].
  eapply Forall_impl; [|exact Hrest]. intros y <-. lia.
Qed.

Lemma stageEmits_phase k e d :
  stageEmits k (Emit e d) ->
  phaseOf e = minPhase k
  /\ In (eventName e) ["rank_changed"; "leaderboard_updated"; "achievement_earned"].
Proof.
  unfold phaseOf.
  destruct k; cbn [stageEmits minPhase]; try contradiction;
    intros ->; cbn; auto.
Qed.

Lemma minPhase_monotone k k' :
  (stageRank k' < stageRank k)%nat -> (minPhase k <= minPhase k')%nat.
Proof. destruct k, k'; cbn; lia. Qed.

Section OrderFacts.
Variable clock : nat -> Z.

Lemma continuation_kinds now k r seg :
  continuation clock now k r = Some seg -> Emits (stageEmits k) seg.
Proof.
  destruct k, r; cbn [continuation]; intros [= <-].
  - js_step; [now apply Emits_repoCall|auto with js].
  - auto with js.
  - js_auto.
  - auto with js.
  - js_step; [auto with js|]. js_step; [|auto with js].
    eapply Emits_weaken; [|apply broadcastPrivateRankChanges_Emits].
    intros eff (c & d & _ & ->). reflexivity.
  - js_step; [auto with js|].
    destruct (negb (isBound a)); [auto with js|].
    unfold publicTry. js_step; [|auto with js].
    js_step; [now apply Emits_repoCall|auto with js].
  - unfold publicTry. js_step; [|auto with js].
    js_step; [now apply Emits_repoCall|auto with js].
  - unfold publicTry. js_auto.
  - unfold publicTry. js_step; [|auto with js].
    js_step; [auto with js|]. js_step; [|auto with js].
    apply Emits_emit. intro d. reflexivity.
  - unfold publicTry. js_auto.
  - js_step; [|auto with js].
    eapply Emits_weaken; [|apply broadcastAchievements_Emits].
    intros eff (c & a & ts & d & _ & _ & ->). reflexivity.
  - js_auto.
Qed.

Lemma drive_ordered script : forall fuel t m m',
  drive clock fuel script (Some t) m = Some m' ->
  exists added,
    trace m' = (trace m ++ added)%list
    /\ StronglySorted le (map phaseOf (attempted added))
    /\ Forall (fun e =>
                 (minPhase (stage t) <= phaseOf e)%nat
                 /\ In (eventName e)
                       ["rank_changed"; "leaderboard_updated";
                        "achievement_earned"])
              (attempted added).
Proof.
  induction fuel as [|fuel IH]; intros t m m'; [discriminate|].
  rewrite drive_S. destruct (resume_respond clock script t) as (c & Hc).
  rewrite Hc.
  pose proof Hc as Hres. unfold resume in Hres.
  destruct (continuation clock (now t) (stage t) (respond script (stage t)))
    as [seg|] eqn:Hk; [|discriminate]. injection Hres as <-.
  destruct (continuation_kinds _ _ _ _ Hk m) as (l1 & E1 & F1).
  assert (Forall (fun e =>
                    phaseOf e = minPhase (stage t)
                    /\ In (eventName e)
                          ["rank_changed"; "leaderboard_updated";
                           "achievement_earned"]) (attempted l1)) as F1'.
  { apply attempted_Forall. eapply Forall_impl; [|exact F1].
    intros [op|e d]; [easy|]. apply stageEmits_phase. }
  pose proof (continuation_outcome clock _ _ _ _ m Hk) as Hout.
  assert (StronglySorted le (map phaseOf (attempted l1))
          /\ Forall (fun e =>
                       (minPhase (stage t) <= phaseOf e)%nat
                       /\ In (eventName e)
                             ["rank_changed"; "leaderboard_updated";
                              "achievement_earned"]) (attempted l1)) as Hlast.
  { split.
    - rewrite <- (app_nil_r (map phaseOf (attempted l1))).
      apply (ascending_app (minPhase (stage t))); [|constructor|constructor].
      apply Forall_map. eapply Forall_impl; [|exact F1'].
      intros e [He _]. now symmetry.
    - eapply Forall_impl; [|exact F1']. intros e [He Hn]. split; [lia|exact Hn]. }
  unfold inCycleTry.
  destruct (seg m) as [[[k'|]|e] m1] eqn:Hseg; cbn in E1.
  - destruct Hout as (Hlt & _ & _). intro Hd.
    destruct (IH {| now := now t; stage := k' |} m1 m' Hd)
      as (l2 & E2 & S2 & F2). cbn [stage] in F2.
    pose proof (minPhase_monotone _ _ Hlt) as Hmono.
    exists (l1 ++ l2)%list. rewrite E2, E1, app_assoc. split; [reflexivity|].
    rewrite attempted_app, map_app. split.
    + apply (ascending_app (minPhase (stage t))); [|exact S2|].
      * apply Forall_map. eapply Forall_impl; [|exact F1'].
        intros e [He _]. now symmetry.
      * apply Forall_map. eapply Forall_impl; [|exact F2].
        intros e [He _]. lia.
    + apply Forall_app. split; [exact (proj2 Hlast)|].
      eapply Forall_impl; [|exact F2]. intros e [He Hn]. split; [lia|exact Hn].
  - rewrite cycleFinally_run, drive_None. intros [= <-]. cbn.
    exists l1. split; [exact E1|exact Hlast].
  - rewrite cycleFinally_run, drive_None. intros [= <-]. cbn.
    exists l1. split; [exact E1|exact Hlast].
Qed.
End OrderFacts.

(** X14: the messages of one cycle are [rank_changed], [leaderboard_updated]
    and [achievement_earned] messages and nothing else, sent in that order:
    all private rank changes before the public update, all achievements
    after it. *)
Theorem cycle_message_order (clock : nat -> Z) (script : SourceScript)
    (m m' : Machine) (Hrun : runCycle clock script m = Some m') :
  exists added,
    trace m' = (trace m ++ added)%list
    /\ StronglySorted le (map phaseOf (attempted added))
    /\ Forall (fun e =>
                 In (eventName e)
                    ["rank_changed"; "leaderboard_updated"; "achievement_earned"])
              (attempted added).
Proof.
  destruct (broadcastRankChanges_cases clock m) as [Hskip|[Hgap Hflag]].
  - rewrite runCycle_skip in Hrun by assumption. injection Hrun as <-.
    exists []. cbn. rewrite app_nil_r. repeat constructor.
  - revert Hrun. unfold runCycle.
    rewrite broadcastRankChanges_enter by assumption. intro Hd.
    apply drive_ordered in Hd as (l & El & Sl & Fl). cbn in El.
    exists (RepoCall UpdateAllRanks :: l). rewrite El, <- app_assoc.
    split; [reflexivity|]. cbn. split; [exact Sl|].
    eapply Forall_impl; [|exact Fl]. now intros e [_ Hn].
Qed.

Lemma cycle_message_order_witness :
  exists m',
    runCycle sampleClock (allAnswer rowsAfter) (warmMachine (Some deliverAll))
    = Some m'
    /\ map eventName (attempted (trace m'))
       = ["rank_changed"; "rank_changed"; "rank_changed"; "rank_changed";
          "leaderboard_updated";
          "achievement_earned"; "achievement_earned"; "achievement_earned"].
Proof.
  destruct (runCycle_total sampleClock (allAnswer rowsAfter)
              (warmMachine (Some deliverAll))) as (m' & Hrun).
  destruct (cycle_message_order sampleClock (allAnswer rowsAfter)
              (warmMachine (Some deliverAll)) m' Hrun) as (added & Htr & _).
  exists m'. split; [exact Hrun|].
  assert (exists x,
            runCycle sampleClock (allAnswer rowsAfter)
              (warmMachine (Some deliverAll)) = Some x
            /\ map eventName (attempted (trace x))
               = ["rank_changed"; "rank_changed"; "rank_changed"; "rank_changed";
                  "leaderboard_updated";
                  "achievement_earned"; "achievement_earned";
                  "achievement_earned"]) as (x & Hx & Hnames).
  { eexists. split; [vm_compute; reflexivity|]. vm_compute. reflexivity. }
  rewrite Hx in Hrun. injection Hrun as <-. exact Hnames.
Defined.

(** ** What monitoring sees *)

(** The snapshot has one entry per distinct user id of the rows. *)
Lemma buildSnapshot_distinct rows ts :
  List.length (buildSnapshot rows ts) = distinctUsers rows.
Proof.
  destruct (snapshot_fold_keys ts rows []) as (Hin & _ & _).
  rewrite <- buildSnapshot_fold in Hin.
  assert (forall k, In k (Map_keys (buildSnapshot rows ts))
                    <-> In k (nodup string_dec (map lb_userId rows))) as Hsame.
  { intro k. rewrite Hin, nodup_In. cbn. tauto. }
  pose proof (buildSnapshot_wf rows ts) as Hwf. unfold MapWf in Hwf.
  pose proof (NoDup_nodup string_dec (map lb_userId rows)) as Hnd.
  unfold distinctUsers.
  replace (List.length (buildSnapshot rows ts))
    with (List.length (Map_keys (buildSnapshot rows ts)))
    by (unfold Map_keys; apply length_map).
  apply Nat.le_antisymm; apply NoDup_incl_length; try assumption;
    intros k Hk; now apply Hsame.
Qed.

(** X15: while a cycle is in flight [getStatus] reports [isBroadcasting];
    after a cycle whose [updateAllRanks] and [findMany] answered it reports
    the flag cleared, the cycle's start time, and as snapshot size the number
    of distinct user ids in the rows, whether or not ids repeat, which is the
    number of rows when no user id repeats. *)
Theorem status_after_cycle (clock : nat -> Z) (script : SourceScript)
    (m : Machine) (rows : list LeaderboardRow)
    (Hgap : MIN_BROADCAST_GAP_MS
            <= clock (clockReads m) - lastBroadcastTime (svc m))
    (Hflag : isBroadcasting (svc m) = false)
    (Hupdate : onUpdateAllRanks script = Returned tt)
    (Hfind : onFindMany script = Returned rows) :
  st_isBroadcasting (getStatus (svc (snd (broadcastRankChanges clock m)))) = true
  /\ exists m',
       runCycle clock script m = Some m'
       /\ st_isRunning (getStatus (svc m')) = broadcastTimer (svc m)
       /\ st_isBroadcasting (getStatus (svc m')) = false
       /\ st_lastBroadcastTime (getStatus (svc m')) = clock (clockReads m)
       /\ st_snapshotSize (getStatus (svc m')) <= Z.of_nat (List.length rows)
       /\ (NoDup (map lb_userId rows) ->
           st_snapshotSize (getStatus (svc m')) = Z.of_nat (List.length rows))
       /\ st_snapshotSize (getStatus (svc m')) = Z.of_nat (distinctUsers rows).
Proof.
  split.
  - now rewrite broadcastRankChanges_enter.
  - destruct (runCycle_success clock script m rows Hgap Hflag Hupdate Hfind)
      as (m' & Hrun & Hsnap & Hlast & Hoff).
    destruct (runCycle_entered clock script m Hgap Hflag)
      as (m'' & Hrun' & _ & _ & Htimer).
    rewrite Hrun in Hrun'. injection Hrun' as <-.
    exists m'. split; [exact Hrun|].
    unfold getStatus. cbn [st_isRunning st_isBroadcasting st_lastBroadcastTime
                           st_snapshotSize].
    rewrite Hsnap. repeat (split; [assumption|]).
    destruct (snapshot_fold_keys (clock (S (clockReads m))) rows [])
      as (_ & Hlen & Hord).
    rewrite <- buildSnapshot_fold in Hlen, Hord. unfold Map_size.
    split; [|split].
    + cbn in Hlen. lia.
    + intro Hnd. specialize (Hord Hnd). cbn in Hord.
      apply (f_equal (@List.length _)) in Hord.
      unfold Map_keys in Hord. rewrite !length_map in Hord. now rewrite Hord.
    + now rewrite buildSnapshot_distinct.
Qed.

Lemma status_after_cycle_witness :
  (exists m',
     runCycle sampleClock (allAnswer rowsAfter) (warmMachine (Some deliverAll))
     = Some m'
     /\ st_isBroadcasting (getStatus (svc m')) = false
     /\ st_lastBroadcastTime (getStatus (svc m')) = sampleClock 0
     /\ st_snapshotSize (getStatus (svc m')) = 6)
  /\ (exists m',
        runCycle sampleClock (allAnswer rowsWithRepeat)
          (warmMachine (Some deliverAll)) = Some m'
        /\ List.length rowsWithRepeat = 3%nat
        /\ st_snapshotSize (getStatus (svc m')) = 2).
Proof.
  assert (MIN_BROADCAST_GAP_MS
          <= sampleClock (clockReads (warmMachine (Some deliverAll)))
             - lastBroadcastTime (svc (warmMachine (Some deliverAll)))) as Hgap.
  { vm_compute. discriminate. }
  split.
  - destruct (status_after_cycle sampleClock (allAnswer rowsAfter)
                (warmMachine (Some deliverAll)) rowsAfter Hgap eq_refl eq_refl
                eq_refl) as (_ & m' & Hrun & _ & Hoff & Hlast & _ & Hsize & _).
    exists m'. split; [exact Hrun|]. split; [exact Hoff|]. split; [exact Hlast|].
    apply Hsize. cbn. repeat constructor; cbn; intuition discriminate.
  - destruct (status_after_cycle sampleClock (allAnswer rowsWithRepeat)
                (warmMachine (Some deliverAll)) rowsWithRepeat Hgap eq_refl
                eq_refl eq_refl) as (_ & m' & Hrun & _ & _ & _ & _ & _ & Hsize).
    exists m'. split; [exact Hrun|]. split; [reflexivity|].
    rewrite Hsize. reflexivity.
Defined.

(** ** What the stored snapshot always is *)

Lemma Built_empty : Built [].
Proof. now exists [], 0. Qed.

Lemma removeNth_Forall {A} (P : A -> Prop) i l :
  Forall P l -> Forall P (removeNth i l).
Proof.
  revert i. induction l as [|x l IH]; intros i H; [now destruct i|].
  inversion H; subst. destruct i; cbn; [assumption|]. constructor; auto.
Qed.

Lemma nth_error_Forall {A} (P : A -> Prop) i l x :
  Forall P l -> nth_error l i = Some x -> P x.
Proof.
  intros H Hn. rewrite Forall_forall in H. apply H.
  eapply nth_error_In; eauto.
Qed.

Section BuiltFacts.
Variable clock : nat -> Z.

(** A stage gets its [currentSnapshot] from the stage before it, or from
[getCurrentSnapshot]. *)
Lemma continuation_built now k r seg m k' snap' :
  continuation clock now k r = Some seg ->
  fst (seg m) = Returned (Suspend k') ->
  carried k' = Some snap' ->
  carried k = Some snap' \/ Built snap'.
Proof.
  destruct k, r; cbn [continuation]; intros [= <-].
  - cbn. intros [= <-]. discriminate.
  - cbn. discriminate.
  - cbn. intros [= <-]. cbn. intros [= <-]. right. red. eauto.
  - cbn. discriminate.
  - unfold bind at 1. cbn [getService]. unfold bind at 1.
    destruct (broadcastPrivateRankChanges _ m) as [[[]|e] m1]; cbn;
      [|discriminate].
    intros [= <-]. cbn. auto.
  - unfold bind at 1. cbn [getService].
    destruct (negb (isBound (svc m))); cbn; intros [= <-]; cbn; auto.
  - cbn. intros [= <-]. cbn. auto.
  - cbn. intros [= <-]. cbn. auto.
  - unfold publicTry, tryCatch, bind at 1. cbn [dateNow]. unfold bind at 1.
    match goal with |- context [emit ?a ?b ?c ?m1] =>
      destruct (emit a b c m1) as [[[]|e] m2] end; cbn;
      intros [= <-]; cbn; auto.
  - cbn. intros [= <-]. cbn. auto.
  - unfold bind at 1.
    destruct (broadcastAchievements _ _ m) as [[[]|e] m1]; cbn;
      [|discriminate].
    intros [= <-]. cbn. auto.
  - cbn. discriminate.
Qed.

Lemma launch_keeps_snapshot (c : M (option Task)) sys sys' :
  (forall m, exists t m',
      c m = (Returned t, m')
      /\ previousSnapshots (svc m') = previousSnapshots (svc m)
      /\ forall t', t = Some t' -> carried (stage t') = None) ->
  SnapshotsBuilt sys ->
  launch c sys = Some sys' ->
  SnapshotsBuilt sys'.
Proof.
  intros Hc [Hprev Hparked]. unfold launch.
  destruct (Hc (machine sys)) as (t & m' & -> & Hsnap & Ht).
  intros [= <-]. split; cbn [machine parked].
  - now rewrite Hsnap.
  - destruct t as [t|]; cbn [addTask]; [|assumption].
    apply Forall_app. split; [assumption|].
    constructor; [|constructor]. intros snap Hs.
    rewrite (Ht t eq_refl) in Hs. discriminate.
Qed.

Lemma broadcastRankChanges_snapshot m :
  exists t m',
    broadcastRankChanges clock m = (Returned t, m')
    /\ previousSnapshots (svc m') = previousSnapshots (svc m)
    /\ forall t', t = Some t' -> carried (stage t') = None.
Proof.
  destruct (broadcastRankChanges_cases clock m) as [Hskip|[Hgap Hflag]].
  - rewrite broadcastRankChanges_skip by assumption. eexists _, _.
    split; [reflexivity|]. split; [reflexivity|]. discriminate.
  - rewrite broadcastRankChanges_enter by assumption. eexists _, _.
    split; [reflexivity|]. split; [reflexivity|]. now intros t' [= <-].
Qed.

Lemma step_SnapshotsBuilt a sys sys' :
  SnapshotsBuilt sys -> step clock a sys = Some sys' -> SnapshotsBuilt sys'.
Proof.
  intro Hinv. destruct a as [|server| | | |i r]; cbn [step].
  - apply launch_keeps_snapshot; [apply broadcastRankChanges_snapshot|assumption].
  - apply launch_keeps_snapshot; [|assumption].
    intro m. eexists _, _. split; [reflexivity|]. split; [reflexivity|].
    discriminate.
  - apply launch_keeps_snapshot; [|assumption].
    intro m. unfold start, bind at 1. cbn [getService].
    destruct (broadcastTimer (svc m)).
    + eexists _, _. split; [reflexivity|]. split; [reflexivity|]. discriminate.
    + unfold bind at 1.
      destruct (broadcastRankChanges_snapshot m) as (t & m1 & -> & Hs & Ht).
      eexists _, _. split; [reflexivity|]. split; [exact Hs|exact Ht].
  - apply launch_keeps_snapshot; [|assumption].
    intro m. unfold stop, bind. cbn [getService].
    destruct (broadcastTimer (svc m)); eexists _, _;
      (split; [reflexivity|]); (split; [reflexivity|]); discriminate.
  - destruct (broadcastTimer (svc (machine sys))); [|discriminate].
    apply launch_keeps_snapshot; [apply broadcastRankChanges_snapshot|assumption].
  - destruct Hinv as [Hprev Hparked].
    destruct (nth_error (parked sys) i) as [t|] eqn:Hnth; [|discriminate].
    pose proof (nth_error_Forall _ _ _ _ Hparked Hnth) as Ht.
    destruct (resume clock t r) as [c|] eqn:Hres; [|discriminate].
    unfold launch. cbn [machine parked].
    destruct (resume_outcome clock t r c (machine sys) Hres)
      as (t' & m' & Hrun & Hout).
    assert (forall t'' snap,
              t' = Some t'' -> carried (stage t'') = Some snap -> Built snap)
      as Hnew.
    { intros t'' snap -> Hs. revert Hrun. unfold resume in Hres.
      destruct (continuation clock (now t) (stage t) r) as [seg|] eqn:Hk;
        [|discriminate]. injection Hres as <-.
      pose proof (fun k' => continuation_built _ _ _ _ (machine sys) k' snap Hk)
        as Hb.
      unfold inCycleTry.
      destruct (seg (machine sys)) as [[[k'|]|e] m1]; cbn.
      - intros [= <- <-]. cbn in Hs.
        destruct (Hb k' eq_refl Hs) as [Hold|Hnew]; [now apply Ht|exact Hnew].
      - discriminate.
      - discriminate. }
    rewrite Hrun. intros [= <-]. split; cbn [machine parked].
    + destruct t' as [t''|].
      * destruct Hout as (_ & _ & _ & ->). exact Hprev.
      * destruct Hout as (_ & _ & _ & Hfin).
        destruct (carried (stage t)) as [snap|] eqn:Hcar.
        -- destruct Hfin as [-> _]. now apply Ht.
        -- destruct Hfin as [-> _]. exact Hprev.
    + destruct t' as [t''|]; cbn [addTask].
      * apply Forall_app. split; [now apply removeNth_Forall|].
        constructor; [|constructor]. intros snap Hs. now apply (Hnew t'').
      * now apply removeNth_Forall.
Qed.

Lemma run_SnapshotsBuilt acts : forall sys sys',
  SnapshotsBuilt sys -> run clock acts sys = Some sys' -> SnapshotsBuilt sys'.
Proof.
  induction acts as [|a acts IH]; intros sys sys' Hinv; cbn [run].
  - now intros [= <-].
  - destruct (step clock a sys) as [sys1|] eqn:Hstep; [|discriminate].
    apply IH. eapply step_SnapshotsBuilt; eauto.
Qed.
End BuiltFacts.

(** X16: in every state the service can reach, the snapshot it holds is one
    that [getCurrentSnapshot] built from some repository answer (the empty
    one at first): its keys are unique, every entry is filed under its own
    user id, and all entries carry one timestamp. *)
Theorem stored_snapshot_built (clock : nat -> Z) (sys : System)
    (Hreach : Reachable clock sys) :
  exists rows ts,
    previousSnapshots (svc (machine sys)) = buildSnapshot rows ts
    /\ MapWf (previousSnapshots (svc (machine sys)))
    /\ forall uid entry,
         Map_get (previousSnapshots (svc (machine sys))) uid = Some entry ->
         rs_userId entry = uid /\ rs_timestamp entry = ts.
Proof.
  destruct Hreach as (acts & Hrun).
  assert (SnapshotsBuilt sys) as [(rows & ts & Hprev) _].
  { eapply run_SnapshotsBuilt; [|exact Hrun].
    split; [apply Built_empty|constructor]. }
  exists rows, ts. rewrite Hprev. split; [reflexivity|].
  split; [apply buildSnapshot_wf|].
  intros uid entry. rewrite buildSnapshot_get. unfold lastRowOf.
  destruct (find _ (rev rows)) as [lb|] eqn:Hfind; [|discriminate].
  apply find_some in Hfind as [_ Heq]. apply String.eqb_eq in Heq.
  cbn. intros [= <-]. cbn. auto.
Qed.

Lemma stored_snapshot_built_witness :
  exists sys,
    run sampleClock (oneCycle rowsAfter) (initialSystem) = Some sys
    /\ parked sys = []
    /\ Map_keys (previousSnapshots (svc (machine sys)))
       = ["U1"; "U2"; "U3"; "U4"; "U5"; "U6"]
    /\ MapWf (previousSnapshots (svc (machine sys))).
Proof.
  assert (exists sys,
            run sampleClock (oneCycle rowsAfter) (initialSystem) = Some sys
            /\ parked sys = []
            /\ Map_keys (previousSnapshots (svc (machine sys)))
               = ["U1"; "U2"; "U3"; "U4"; "U5"; "U6"]) as (sys & Hrun & Hp & Hk).
  { eexists. split; [vm_compute; reflexivity|]. split; reflexivity. }
  exists sys. split; [exact Hrun|]. split; [exact Hp|]. split; [exact Hk|].
  destruct (stored_snapshot_built sampleClock sys
              (ex_intro _ (oneCycle rowsAfter) Hrun)) as (rows & ts & _ & Hwf & _).
  exact Hwf.
Defined.

(** ** Public updates and cycles *)

Lemma cyclesStarted_app tr1 tr2 :
  cyclesStarted (tr1 ++ tr2) = (cyclesStarted tr1 + cyclesStarted tr2)%nat.
Proof. unfold cyclesStarted. now rewrite filter_app, length_app. Qed.

Lemma publicUpdates_app tr1 tr2 :
  publicUpdates (tr1 ++ tr2) = (publicUpdates tr1 + publicUpdates tr2)%nat.
Proof. unfold publicUpdates. now rewrite filter_app, length_app. Qed.

Lemma publicUpdates_le_length tr : (publicUpdates tr <= List.length tr)%nat.
Proof. unfold publicUpdates. apply filter_length_le. Qed.

Lemma cyclesStarted_none tr :
  Forall (fun eff => eff <> RepoCall UpdateAllRanks) tr -> cyclesStarted tr = 0%nat.
Proof.
  unfold cyclesStarted. induction 1 as [|eff tr Hne _ IH]; [reflexivity|].
  cbn [filter]. destruct eff as [[]|e d]; try exact IH. contradiction.
Qed.

Lemma publicUpdates_none tr :
  Forall (fun eff => match eff with
                     | Emit e _ => exists uid, room e = userRoom uid
                     | RepoCall _ => True
                     end) tr ->
  publicUpdates tr = 0%nat.
Proof.
  unfold publicUpdates. induction 1 as [|eff tr Hu _ IH]; [reflexivity|].
  cbn [filter]. destruct eff as [op|e d]; cbn [isPublicEmit]; [exact IH|].
  destruct Hu as (uid & ->). unfold userRoom. cbn. exact IH.
Qed.

Lemma publicsAhead_app ts1 ts2 :
  publicsAhead (ts1 ++ ts2) = (publicsAhead ts1 + publicsAhead ts2)%nat.
Proof.
  unfold publicsAhead. induction ts1 as [|t ts1 IH]; cbn; [reflexivity|].
  fold (publicsAhead ts1) (publicsAhead (ts1 ++ ts2)) in *. lia.
Qed.

Lemma publicsAhead_remove i ts t :
  nth_error ts i = Some t ->
  publicsAhead ts = (publicAhead t + publicsAhead (removeNth i ts))%nat.
Proof.
  revert i. induction ts as [|t0 ts IH]; intros [|i]; cbn; try discriminate.
  - now intros [= ->].
  - intro Hn. specialize (IH i Hn). unfold publicsAhead in *. cbn. lia.
Qed.

Section CountFacts.
Variable clock : nat -> Z.

Lemma continuation_no_recompute now k r seg :
  continuation clock now k r = Some seg ->
  Emits (fun eff => eff <> RepoCall UpdateAllRanks) seg.
Proof.
  destruct k, r; cbn [continuation]; intros [= <-].
  - js_step; [now apply Emits_repoCall|auto with js].
  - auto with js.
  - js_auto.
  - auto with js.
  - js_step; [auto with js|]. js_step; [|auto with js].
    eapply Emits_weaken; [|apply broadcastPrivateRankChanges_Emits].
    intros eff (c & d & _ & ->). discriminate.
  - js_step; [auto with js|].
    destruct (negb (isBound a)); [auto with js|].
    unfold publicTry. js_step; [|auto with js].
    js_step; [now apply Emits_repoCall|auto with js].
  - unfold publicTry. js_step; [|auto with js].
    js_step; [now apply Emits_repoCall|auto with js].
  - unfold publicTry. js_auto.
  - unfold publicTry. js_step; [|auto with js].
    js_step; [auto with js|]. js_step; [|auto with js].
    apply Emits_emit. intro d. discriminate.
  - unfold publicTry. js_auto.
  - js_step; [|auto with js].
    eapply Emits_weaken; [|apply broadcastAchievements_Emits].
    intros eff (c & a & ts & d & _ & _ & ->). discriminate.
  - js_auto.
Qed.

(** The resumption after [getWeekly] puts at most one effect on the trace. *)
Lemma continuation_public_once now snap ch tg r seg m :
  continuation clock now (AwaitGetWeekly snap ch tg) r = Some seg ->
  exists added,
    trace (snd (seg m)) = (trace m ++ added)%list
    /\ (List.length added <= 1)%nat.
Proof.
  destruct r; cbn [continuation]; intros [= <-].
  - unfold publicTry, tryCatch, bind at 1. cbn [dateNow]. unfold bind at 1.
    destruct (io (svc m)) as [server|] eqn:Hio.
    + rewrite (emit_bound server) by (cbn; exact Hio). cbv zeta.
      cbn [trace svc clockReads].
      match goal with |- context [server ?tr ?e] =>
        exists [Emit e (server tr e)]; destruct (server tr e) end;
        cbn; split; auto.
    + unfold emit. cbn [svc]. rewrite Hio. cbn.
      exists []. rewrite app_nil_r. split; [reflexivity|cbn; lia].
  - cbn. exists []. rewrite app_nil_r. split; [reflexivity|cbn; lia].
Qed.

(** One resumption: no cycle is started, and the public updates it sends
plus the one its successor may still send are at most the one the resumed
invocation had ahead of it. *)
Lemma resume_counts t r c m :
  resume clock t r = Some c ->
  exists t' m' added,
    c m = (Returned t', m')
    /\ trace m' = (trace m ++ added)%list
    /\ cyclesStarted added = 0%nat
    /\ (publicUpdates added
        + match t' with Some t'' => publicAhead t'' | None => 0 end
        <= publicAhead t)%nat.
Proof.
  intro Hres.
  destruct (resume_outcome clock t r c m Hres) as (t' & m' & Hrun & Hout).
  destruct (resume_Emits clock t r c Hres m) as (added & Htr & Hseg).
  rewrite Hrun in Htr. cbn in Htr.
  exists t', m', added. split; [exact Hrun|]. split; [exact Htr|].
  unfold resume in Hres.
  destruct (continuation clock (now t) (stage t) r) as [seg|] eqn:Hk;
    [|discriminate]. injection Hres as <-.
  split.
  - destruct (continuation_no_recompute _ _ _ _ Hk m) as (l & El & Fl).
    assert (trace (snd (inCycleTry (now t) seg m)) = trace (snd (seg m))) as Hsame.
    { unfold inCycleTry. now destruct (seg m) as [[[k'|]|e] m1]. }
    rewrite Hrun in Hsame. cbn in Hsame. rewrite Hsame, El in Htr.
    apply app_inv_head in Htr. subst l. now apply cyclesStarted_none.
  - assert (match t' with Some t'' => publicAhead t'' | None => 0%nat end
            <= publicAhead t
            /\ ((3 <= stageRank (stage t))%nat ->
                (stageRank (stage t) = 3)%nat ->
                match t' with Some t'' => publicAhead t'' | None => 0%nat end
                = 0%nat))%nat as [Hmono Hafter].
    { unfold publicAhead. destruct t' as [t''|].
      - destruct Hout as (_ & Hlt & _).
        destruct (Nat.leb_spec 3 (stageRank (stage t'')));
        destruct (Nat.leb_spec 3 (stageRank (stage t))); split; try lia.
      - split; [lia|reflexivity]. }
    destruct (stage t) eqn:Hstage;
      try (rewrite publicUpdates_none;
           [exact Hmono
           |eapply Forall_impl; [|exact Hseg];
            intros [op|e d]; [easy|];
            intros [Hu|(s0 & c0 & tg0 & tw0 & ts0 & Habs & _)];
            [exact Hu|discriminate]]).
    (* after [getWeekly] *)
    destruct (continuation_public_once _ _ _ _ _ _ m Hk) as (l & El & Hlen).
    assert (trace (snd (inCycleTry (now t) seg m)) = trace (snd (seg m))) as Hsame.
    { unfold inCycleTry. now destruct (seg m) as [[[k'|]|e] m1]. }
    rewrite Hrun in Hsame. cbn in Hsame. rewrite Hsame, El in Htr.
    apply app_inv_head in Htr. subst l.
    pose proof (publicUpdates_le_length added).
    rewrite Hafter by (cbn; lia).
    unfold publicAhead. rewrite Hstage. cbn. lia.
Qed.

Lemma broadcastRankChanges_counts m :
  exists t m' added,
    broadcastRankChanges clock m = (Returned t, m')
    /\ trace m' = (trace m ++ added)%list
    /\ publicUpdates added = 0%nat
    /\ (match t with Some t' => publicAhead t' | None => 0 end
        <= cyclesStarted added)%nat.
Proof.
  destruct (broadcastRankChanges_cases clock m) as [Hskip|[Hgap Hflag]].
  - rewrite broadcastRankChanges_skip by assumption.
    eexists _, _, []. split; [reflexivity|]. cbn. rewrite app_nil_r. auto.
  - rewrite broadcastRankChanges_enter by assumption.
    eexists _, _, [_]. split; [reflexivity|]. cbn. auto.
Qed.

Lemma launch_PublicCovered (c : M (option Task)) sys sys' :
  (forall m, exists t m' added,
      c m = (Returned t, m')
      /\ trace m' = (trace m ++ added)%list
      /\ publicUpdates added = 0%nat
      /\ (match t with Some t' => publicAhead t' | None => 0 end
          <= cyclesStarted added)%nat) ->
  PublicCovered sys ->
  launch c sys = Some sys' ->
  PublicCovered sys'.
Proof.
  intros Hc Hinv. unfold launch.
  destruct (Hc (machine sys)) as (t & m' & added & -> & Htr & Hpub & Hahead).
  intros [= <-]. unfold PublicCovered in *. cbn [machine parked].
  rewrite Htr, publicUpdates_app, cyclesStarted_app, Hpub.
  destruct t as [t|]; cbn [addTask].
  - rewrite publicsAhead_app. cbn. lia.
  - lia.
Qed.

Lemma step_PublicCovered a sys sys' :
  PublicCovered sys -> step clock a sys = Some sys' -> PublicCovered sys'.
Proof.
  intro Hinv. destruct a as [|server| | | |i r]; cbn [step].
  - apply launch_PublicCovered; [apply broadcastRankChanges_counts|assumption].
  - apply launch_PublicCovered; [|assumption].
    intro m. eexists _, _, []. split; [reflexivity|]. cbn.
    rewrite app_nil_r. auto.
  - apply launch_PublicCovered; [|assumption].
    intro m. unfold start, bind at 1. cbn [getService].
    destruct (broadcastTimer (svc m)).
    + eexists _, _, []. split; [reflexivity|]. cbn. rewrite app_nil_r. auto.
    + unfold bind at 1.
      destruct (broadcastRankChanges_counts m)
        as (t & m1 & added & -> & Htr & Hp & Ha).
      eexists _, _, added. split; [reflexivity|]. cbn. auto.
  - apply launch_PublicCovered; [|assumption].
    intro m. unfold stop, bind. cbn [getService].
    destruct (broadcastTimer (svc m)); eexists _, _, [];
      (split; [reflexivity|]); cbn; rewrite app_nil_r; auto.
  - destruct (broadcastTimer (svc (machine sys))); [|discriminate].
    apply launch_PublicCovered; [apply broadcastRankChanges_counts|assumption].
  - destruct (nth_error (parked sys) i) as [t|] eqn:Hnth; [|discriminate].
    destruct (resume clock t r) as [c|] eqn:Hres; [|discriminate].
    unfold launch. cbn [machine parked].
    destruct (resume_counts t r c (machine sys) Hres)
      as (t' & m' & added & -> & Htr & Hcs & Hpub).
    intros [= <-]. unfold PublicCovered in *. cbn [machine parked].
    rewrite Htr, publicUpdates_app, cyclesStarted_app, Hcs.
    rewrite (publicsAhead_remove i _ t Hnth) in Hinv.
    destruct t' as [t''|]; cbn [addTask].
    + rewrite publicsAhead_app. cbn. lia.
    + lia.
Qed.

Lemma run_PublicCovered acts : forall sys sys',
  PublicCovered sys -> run clock acts sys = Some sys' -> PublicCovered sys'.
Proof.
  induction acts as [|a acts IH]; intros sys sys' Hinv; cbn [run].
  - now intros [= <-].
  - destruct (step clock a sys) as [sys1|] eqn:Hstep; [|discriminate].
    apply IH. eapply step_PublicCovered; eauto.
Qed.
End CountFacts.

(** X17: however calls, timer fires and resumptions interleave, the service
    has never sent more messages to the shared room than it has started
    cycles: at most one public update per cycle. *)
Theorem one_public_update_per_cycle (clock : nat -> Z) (sys : System)
    (Hreach : Reachable clock sys) :
  (publicUpdates (trace (machine sys)) <= cyclesStarted (trace (machine sys)))%nat.
Proof.
  destruct Hreach as (acts & Hrun).
  assert (PublicCovered sys) as Hinv.
  { eapply run_PublicCovered; [|exact Hrun]. unfold PublicCovered. cbn. lia. }
  unfold PublicCovered in Hinv. lia.
Qed.

Lemma one_public_update_per_cycle_witness :
  exists sys,
    run sampleClock (oneCycle rowsAfter) (initialSystem) = Some sys
    /\ publicUpdates (trace (machine sys)) = 1%nat
    /\ cyclesStarted (trace (machine sys)) = 1%nat.
Proof.
  assert (exists sys,
            run sampleClock (oneCycle rowsAfter) (initialSystem) = Some sys
            /\ cyclesStarted (trace (machine sys)) = 1%nat
            /\ (1 <= publicUpdates (trace (machine sys)))%nat)
    as (sys & Hrun & Hcs & Hge).
  { eexists. split; [vm_compute; reflexivity|]. split; [reflexivity|].
    vm_compute. constructor. }
  exists sys. split; [exact Hrun|]. split; [|exact Hcs].
  pose proof (one_public_update_per_cycle sampleClock sys
                (ex_intro _ (oneCycle rowsAfter) Hrun)) as Hle.
  rewrite Hcs in Hle. now apply Nat.le_antisymm.
Defined.

(** ** The sorted result is the only one possible *)

(** X18: the result of the diff is the only arrangement of the collected
    events that is sorted by descending |rankChange| and keeps the events of
    each magnitude in the order the loop pushed them; any stable sort returns
    this list. *)
Theorem detectRankChanges_determined (previous current : JsMap RankSnapshot)
    (l : list RankChangeEvent)
    (Hsorted : StronglySorted (descendingBy magnitude) l)
    (Hstable : forall k,
        filter (fun e => magnitude e =? k) l
        = filter (fun e => magnitude e =? k) (collectChanges previous current)) :
  l = detectRankChanges previous current.
Proof.
  unfold detectRankChanges.
  apply (Array_sort_unique byMagnitude magnitude byMagnitude_key).
  - exact Hsorted.
  - exact Hstable.
Qed.

Lemma detectRankChanges_determined_witness :
  [ mkRankChangeEvent "U2" 200 140 9 9 60 2000;
    mkRankChangeEvent "U1" 12 8 4 4 4 2000;
    mkRankChangeEvent "U5" 16 20 1 2 (-4) 2000;
    mkRankChangeEvent "U4" 7 7 2 1 0 2000 ]
  = detectRankChanges snapshotBefore snapshotAfter.
Proof.
  apply detectRankChanges_determined.
  - repeat constructor; unfold descendingBy, magnitude; cbn; lia.
  - intros [|q|q]; cbn; [reflexivity| |reflexivity].
    destruct (Pos.eqb_spec 60 q); destruct (Pos.eqb_spec 4 q);
      try reflexivity; congruence.
Defined.

(** ** Sample runs of the further properties *)

Lemma buildSnapshot_lookup_witness :
  Map_get (buildSnapshot rowsWithRepeat 7) "U1"
  = Some (entryOf 7 (mkRow "U1" "ann" 9 3 950 45))
  /\ Map_get (buildSnapshot rowsWithRepeat 7) "U9" = None.
Proof.
  destruct (buildSnapshot_lookup rowsWithRepeat 7 "U1") as (Hget & _).
  destruct (buildSnapshot_lookup rowsWithRepeat 7 "U9") as (_ & Hnone & _).
  split; [rewrite Hget; reflexivity|].
  apply Hnone. cbn. intuition discriminate.
Defined.

Lemma stop_only_disarms_witness :
  exists sys sys',
    run sampleClock [CallInitialize deliverAll; CallStart] initialSystem = Some sys
    /\ List.length (parked sys) = 1%nat
    /\ step sampleClock CallStop sys = Some sys'
    /\ parked sys' = parked sys
    /\ step sampleClock TimerFires sys' = None
    /\ exists sys'', step sampleClock (Resume 0 FulfilledVoid) sys' = Some sys''.
Proof.
  assert (exists sys,
            run sampleClock [CallInitialize deliverAll; CallStart] initialSystem
            = Some sys
            /\ parked sys = [ {| now := sampleClock 0;
                                 stage := AwaitUpdateAllRanks |} ])
    as (sys & Hrun & Hparked).
  { eexists. split; [vm_compute; reflexivity|]. reflexivity. }
  destruct (stop_only_disarms sampleClock sys)
    as (sys' & Hstop & _ & Hsame & _ & _ & _ & _ & _ & Hfire & Hresume).
  exists sys, sys'. split; [exact Hrun|]. split; [now rewrite Hparked|].
  split; [exact Hstop|]. split; [exact Hsame|]. split; [exact Hfire|].
  apply (Hresume (allAnswer rowsAfter) 0%nat
           {| now := sampleClock 0; stage := AwaitUpdateAllRanks |}).
  now rewrite Hsame, Hparked.
Defined.
